(** * An elastic stick: Verlet tip point, bend cone, stretch cap, Bezier query

    Shallow embedding of [utils/vector.ts] (the [Vec3] operations) and of
    [classes/Stick.ts] (the [Stick] class) over the real numbers.

    Number model.  A JavaScript [number] is modelled by a real: [+ - * /] are
    the field operations, [Math.sqrt], [Math.sin], [Math.cos], [Math.acos],
    [Math.max], [Math.min] and [Math.PI] are [sqrt], [sin], [cos], [acos],
    [Rmax], [Rmin] and [PI].  Rounding, overflow, NaN and signed zeros are not
    modelled; a bound proved here is the bound of the ideal arithmetic, so the
    tolerance that a statement about the compiled program carries is [0] in
    this development.  Division by a zero divisor evaluates to [0] in [R]
    ([Rinv_0]); every place where the source guards a divisor is kept as the
    same guard, and [Vec3.normalize_checked] tracks the divisors explicitly.

    A field of [ElasticProperties] that the class reads through [|| d] or
    compares with [undefined] is an [option R], [None] standing for
    [undefined]. *)

From Stdlib Require Import Reals Lra Psatz List.
Import ListNotations.

Open Scope R_scope.

(** ** types.ts *)

Record Vector3 : Type := mkVector3 { x : R; y : R; z : R }.

Record ElasticProperties : Type := mkElasticProperties {
  stiffness : R;
  damping : R;
  mass : R;
  stretchFactor : R;
  gripRatio : option R;
  maxStretchRatio : option R;
  maxBendAngle : option R;
  taper : option R
}.

(** [a || d] on a possibly missing number: [undefined] and [0] are falsy. *)
Definition or_default (a : option R) (d : R) : R :=
  match a with
  | Some v => if Req_dec_T v 0 then d else v
  | None => d
  end.

(** ** utils/vector.ts *)

Module Vec3.

Definition create (x0 y0 z0 : R) : Vector3 := mkVector3 x0 y0 z0.

Definition add (a b : Vector3) : Vector3 :=
  mkVector3 (x a + x b) (y a + y b) (z a + z b).

Definition sub (a b : Vector3) : Vector3 :=
  mkVector3 (x a - x b) (y a - y b) (z a - z b).

Definition scale (v : Vector3) (s : R) : Vector3 :=
  mkVector3 (x v * s) (y v * s) (z v * s).

Definition dot (a b : Vector3) : R := x a * x b + y a * y b + z a * z b.

Definition length (v : Vector3) : R :=
  sqrt (x v * x v + y v * y v + z v * z v).

Definition normalize (v : Vector3) : Vector3 :=
  let len := sqrt (x v * x v + y v * y v + z v * z v) in
  if Req_dec_T len 0 then mkVector3 0 0 0
  else mkVector3 (x v / len) (y v / len) (z v / len).

Definition distance (a b : Vector3) : R :=
  let dx := x a - x b in
  let dy := y a - y b in
  let dz := z a - z b in
  sqrt (dx * dx + dy * dy + dz * dz).

Definition lerp (a b : Vector3) (t : R) : Vector3 :=
  mkVector3 (x a + (x b - x a) * t)
            (y a + (y b - y a) * t)
            (z a + (z b - z a) * t).

(** A division that reports a zero divisor instead of evaluating it. *)
Definition div_checked (a b : R) : option R :=
  if Req_dec_T b 0 then None else Some (a / b).

(** [normalize] again, every [/] replaced by [div_checked]: the result is
    [None] as soon as one of the divisions it performs has divisor [0]. *)
Definition normalize_checked (v : Vector3) : option Vector3 :=
  let len := sqrt (x v * x v + y v * y v + z v * z v) in
  if Req_dec_T len 0 then Some (mkVector3 0 0 0)
  else
    match div_checked (x v) len, div_checked (y v) len, div_checked (z v) len with
    | Some qx, Some qy, Some qz => Some (mkVector3 qx qy qz)
    | _, _, _ => None
    end.

End Vec3.

(** ** classes/Stick.ts *)

Module Stick.

Record t : Type := mk {
  length : R;
  props : ElasticProperties;
  handlePos : Vector3;
  handleDir : Vector3;
  tipPos : Vector3;
  oldTipPos : Vector3
}.

(** [this.length * (1 - (this.props.gripRatio || 0))], the expression that
    [reset], [swing] and [queryPNormalize] each recompute. *)
Definition activeLengthOf (s : t) : R :=
  length s * (1 - or_default (gripRatio (props s)) 0).

Definition reset (s : t) : t :=
  let activeLength := length s * (1 - or_default (gripRatio (props s)) 0) in
  let tip := Vec3.add (handlePos s) (Vec3.scale (handleDir s) activeLength) in
  mk (length s) (props s) (handlePos s) (handleDir s) tip tip.

Definition constructor (length0 : R) (props0 : ElasticProperties) : t :=
  reset (mk length0 props0
            (Vec3.create 0 0 0) (Vec3.create 0 1 0)
            (Vec3.create 0 length0 0) (Vec3.create 0 length0 0)).

Definition updateProperties (s : t) (length0 : R) (props0 : ElasticProperties) : t :=
  mk length0 props0 (handlePos s) (handleDir s) (tipPos s) (oldTipPos s).

(** Steps 1 and 2 of [performPhysicsStep]: the Verlet prediction
    [tipPos + dampedVelocity + accel * dt * dt]. *)
Definition verletPos (s : t) (activeLength dt : R) : Vector3 :=
  let velocity := Vec3.sub (tipPos s) (oldTipPos s) in
  let drag := Rmax 0 (1 - damping (props s) * dt) in
  let dampedVelocity := Vec3.scale velocity drag in
  let idealTipPos :=
    Vec3.add (handlePos s) (Vec3.scale (handleDir s) activeLength) in
  let displacement := Vec3.sub idealTipPos (tipPos s) in
  let taperMultiplier := 1 + or_default (taper (props s)) 0 * (5 / 10) in
  let effectiveStiffness := stiffness (props s) * taperMultiplier in
  let springForce := Vec3.scale displacement effectiveStiffness in
  let mass0 := Rmax (1 / 10) (mass (props s)) in
  let accel := Vec3.scale springForce (1 / mass0) in
  let delta := Vec3.add dampedVelocity (Vec3.scale accel (dt * dt)) in
  Vec3.add (tipPos s) delta.

(** Step 3: the soft length constraint. *)
Definition softLength (s : t) (activeLength dt : R) (nextPos : Vector3) : Vector3 :=
  let toHandle := Vec3.sub nextPos (handlePos s) in
  let currentLen := Vec3.length toHandle in
  if Rgt_dec currentLen (1 / 10000) then
    let stiffnessFactor := stretchFactor (props s) * (5 / 100) * dt in
    let alpha := Rmin 1 (Rmax 0 stiffnessFactor) in
    let targetLen := activeLength in
    let correctionLen := currentLen + (targetLen - currentLen) * alpha in
    Vec3.add (handlePos s) (Vec3.scale (Vec3.normalize toHandle) correctionLen)
  else nextPos.

(** [this.props.maxBendAngle === undefined ? 180 : this.props.maxBendAngle] *)
Definition maxAngleDegOf (p : ElasticProperties) : R :=
  match maxBendAngle p with
  | None => 180
  | Some a => a
  end.

(** Step 4: the cone constraint on the bend angle. *)
Definition bendClamp (s : t) (nextPos : Vector3) : Vector3 :=
  let vecToTip := Vec3.sub nextPos (handlePos s) in
  let tipDist := Vec3.length vecToTip in
  if Rgt_dec tipDist (1 / 10000) then
    let tipDir := Vec3.scale vecToTip (1 / tipDist) in
    let cosAngle := Vec3.dot tipDir (handleDir s) in
    let maxAngleDeg := maxAngleDegOf (props s) in
    if Rlt_dec maxAngleDeg (1799 / 10) then
      let maxAngleRad := maxAngleDeg * (PI / 180) in
      let minCos := cos maxAngleRad in
      if Rlt_dec cosAngle minCos then
        let currentAngle := acos (Rmax (-1) (Rmin 1 cosAngle)) in
        if Rgt_dec currentAngle (1 / 1000) then
          let tSlerp := maxAngleRad / currentAngle in
          let sinAngle := sin currentAngle in
          let w1 := sin ((1 - tSlerp) * currentAngle) / sinAngle in
          let w2 := sin (tSlerp * currentAngle) / sinAngle in
          let newDir :=
            Vec3.add (Vec3.scale (handleDir s) w1) (Vec3.scale tipDir w2) in
          let tipDir' := Vec3.normalize newDir in
          Vec3.add (handlePos s) (Vec3.scale tipDir' tipDist)
        else nextPos
      else nextPos
    else nextPos
  else nextPos.

(** Step 5: the cap on the stretched length. *)
Definition stretchClamp (s : t) (activeLength : R) (nextPos : Vector3) : Vector3 :=
  let maxRatio := or_default (maxStretchRatio (props s)) (15 / 10) in
  let maxAllowedLen := activeLength * maxRatio in
  let finalVec := Vec3.sub nextPos (handlePos s) in
  let finalDist := Vec3.length finalVec in
  if Rgt_dec finalDist maxAllowedLen then
    Vec3.add (handlePos s) (Vec3.scale (Vec3.normalize finalVec) maxAllowedLen)
  else nextPos.

Definition performPhysicsStep (s : t) (activeLength dt : R) : t :=
  let tempPos := tipPos s in
  let nextPos := verletPos s activeLength dt in
  let nextPos := softLength s activeLength dt nextPos in
  let nextPos := bendClamp s nextPos in
  let nextPos := stretchClamp s activeLength nextPos in
  mk (length s) (props s) (handlePos s) (handleDir s) nextPos tempPos.

(** [for (let i = 0; i < subSteps; i++) this.performPhysicsStep(...)] *)
Fixpoint subStepLoop (n : nat) (s : t) (activeLength subDt : R) : t :=
  match n with
  | O => s
  | S n' => subStepLoop n' (performPhysicsStep s activeLength subDt) activeLength subDt
  end.

Definition subSteps : nat := 8.

Definition swing (s : t) (handlePos0 handleDir0 : Vector3) (dt : R) : t :=
  let s1 := mk (length s) (props s) handlePos0 (Vec3.normalize handleDir0)
               (tipPos s) (oldTipPos s) in
  let gripRatio0 := or_default (gripRatio (props s)) 0 in
  let activeLength := length s * (1 - gripRatio0) in
  if Rlt_dec activeLength (1 / 10) then
    mk (length s) (props s) handlePos0 (Vec3.normalize handleDir0)
       handlePos0 handlePos0
  else
    let subDt := dt / INR subSteps in
    subStepLoop subSteps s1 activeLength subDt.

Definition queryPNormalize (s : t) (t0 : R) : Vector3 :=
  let gripRatio0 := or_default (gripRatio (props s)) 0 in
  let taper0 := or_default (taper (props s)) 0 in
  if Rlt_dec t0 gripRatio0 then
    if Req_dec_T gripRatio0 0 then handlePos s
    else
      let distBack := (gripRatio0 - t0) * length s in
      Vec3.sub (handlePos s) (Vec3.scale (handleDir s) distBack)
  else
    let activeLength := length s * (1 - gripRatio0) in
    if Rle_dec activeLength (1 / 10) then handlePos s
    else
      let segmentT := (t0 - gripRatio0) / (1 - gripRatio0) in
      let p0 := handlePos s in
      let p3 := tipPos s in
      let handleWeight := 33 / 100 + taper0 * (4 / 10) in
      let tipWeight := 33 / 100 - taper0 * (1 / 10) in
      let p1 := Vec3.add p0 (Vec3.scale (handleDir s) (activeLength * handleWeight)) in
      let vecToTip := Vec3.sub p3 p0 in
      let dirToHandle := Vec3.normalize (Vec3.scale vecToTip (-1)) in
      let p2Dir :=
        Vec3.normalize (Vec3.add dirToHandle (Vec3.scale (handleDir s) (5 / 10))) in
      let p2 := Vec3.add p3 (Vec3.scale p2Dir (activeLength * tipWeight)) in
      let u := 1 - segmentT in
      let tt := segmentT * segmentT in
      let uu := u * u in
      let uuu := uu * u in
      let ttt := tt * segmentT in
      let term0 := Vec3.scale p0 uuu in
      let term1 := Vec3.scale p1 (3 * uu * segmentT) in
      let term2 := Vec3.scale p2 (3 * u * tt) in
      let term3 := Vec3.scale p3 ttt in
      Vec3.add (Vec3.add term0 term1) (Vec3.add term2 term3).

(** The states a caller can reach through the public interface. *)
Inductive reachable : t -> Prop :=
| reach_constructor : forall length0 props0,
    reachable (constructor length0 props0)
| reach_updateProperties : forall s length0 props0,
    reachable s -> reachable (updateProperties s length0 props0)
| reach_reset : forall s, reachable s -> reachable (reset s)
| reach_swing : forall s h d dt, reachable s -> reachable (swing s h d dt).

End Stick.

(** ** Configurations and measures used in the statements *)

(** The initial configuration of [App.tsx]. *)
Definition defaultProps : ElasticProperties :=
  mkElasticProperties 8 (25 / 10) 2 20 (Some 0) (Some (15 / 10)) (Some 180) (Some 0).

Definition set_gripRatio (p : ElasticProperties) (g : option R) : ElasticProperties :=
  mkElasticProperties (stiffness p) (damping p) (mass p) (stretchFactor p)
    g (maxStretchRatio p) (maxBendAngle p) (taper p).

Definition set_maxStretchRatio (p : ElasticProperties) (m : option R) : ElasticProperties :=
  mkElasticProperties (stiffness p) (damping p) (mass p) (stretchFactor p)
    (gripRatio p) m (maxBendAngle p) (taper p).

Definition set_maxBendAngle (p : ElasticProperties) (a : option R) : ElasticProperties :=
  mkElasticProperties (stiffness p) (damping p) (mass p) (stretchFactor p)
    (gripRatio p) (maxStretchRatio p) a (taper p).

Definition with_props (s : Stick.t) (p : ElasticProperties) : Stick.t :=
  Stick.mk (Stick.length s) p (Stick.handlePos s) (Stick.handleDir s)
           (Stick.tipPos s) (Stick.oldTipPos s).

(** Cosine of the angle between the direction from the handle to the tip and
    the handle direction. *)
Definition bendCos (s : Stick.t) : R :=
  Vec3.dot (Vec3.normalize (Vec3.sub (Stick.tipPos s) (Stick.handlePos s)))
           (Stick.handleDir s).

(** That angle, in radians, with the clamping of the cosine that
    [performPhysicsStep] applies before [Math.acos]. *)
Definition bendAngle (s : Stick.t) : R := acos (Rmax (-1) (Rmin 1 (bendCos s))).

(** [maxBendAngle] in radians, as [performPhysicsStep] converts it. *)
Definition maxAngleRadOf (p : ElasticProperties) : R :=
  Stick.maxAngleDegOf p * (PI / 180).

(** The initial configuration with the bend cone narrowed to 45 degrees. *)
Definition coneProps : ElasticProperties := set_maxBendAngle defaultProps (Some 45).

(** The position that enters step 4 of a sub-step: the Verlet prediction
    after the soft length correction. *)
Definition bendEntry (s : Stick.t) (activeLength dt : R) : Vector3 :=
  Stick.softLength s activeLength dt (Stick.verletPos s activeLength dt).

(** The pose that [swing] stores before it looks at the active length. *)
Definition posed (s : Stick.t) (h d : Vector3) : Stick.t :=
  Stick.mk (Stick.length s) (Stick.props s) h (Vec3.normalize d)
           (Stick.tipPos s) (Stick.oldTipPos s).

(** The state on which a swing of a rod that is not degenerate runs the last
    of its sub-steps. *)
Definition beforeLastSubStep (s : Stick.t) (h d : Vector3) (dt : R) : Stick.t :=
  Stick.subStepLoop (pred Stick.subSteps) (posed s h d)
    (Stick.activeLengthOf s) (dt / INR Stick.subSteps).

(** A point that step 4 lets through: it is in the dead zone around the
    handle, or the configuration switches the cone off, or the point is
    inside the cone around [hd]. *)
Definition insideCone (p : ElasticProperties) (h hd pt : Vector3) : Prop :=
  Vec3.length (Vec3.sub pt h) <= 1 / 10000 \/
  1799 / 10 <= Stick.maxAngleDegOf p \/
  cos (maxAngleRadOf p)
  <= Vec3.dot (Vec3.scale (Vec3.sub pt h) (1 / Vec3.length (Vec3.sub pt h))) hd.

(** ** components/StickVisualizer.tsx: keyframe tracks and curve sampling *)

Module StickVisualizer.

(** [{ t: number; v: [number, number, number] }], Euler angles in degrees. *)
Record Keyframe : Type := mkKeyframe { t : R; v : R * R * R }.

Definition Track : Type := list Keyframe.

(** [new THREE.Euler(x, y, z)], angles in radians. *)
Inductive Euler : Type := mkEuler (ex ey ez : R).

(** What a call produces: a value, or the [TypeError] that reading a
    property of [undefined] throws. *)
Inductive outcome (A : Type) : Type :=
| Returned (a : A)
| TypeError.

Arguments Returned {A} a.
Arguments TypeError {A}.

Definition lerp (a b t0 : R) : R := a + (b - a) * t0.

Definition D2R : R := PI / 180.

(** [v[0]], [v[1]], [v[2]] *)
Definition v0 (k : Keyframe) : R := fst (fst (v k)).
Definition v1 (k : Keyframe) : R := snd (fst (v k)).
Definition v2 (k : Keyframe) : R := snd (v k).

(** The search loop of [evaluateTrack], from index [i] on the suffix
    [track[i..]]: the first [i] with
    [time >= track[i].t && time < track[i+1].t], if there is one below
    [track.length - 1]. *)
Fixpoint findFrame (suffix : Track) (time : R) (i : nat) : option nat :=
  match suffix with
  | k1 :: ((k2 :: _) as rest) =>
      if Rge_dec time (t k1) then
        if Rlt_dec time (t k2) then Some i else findFrame rest time (S i)
      else findFrame rest time (S i)
  | _ => None
  end.

(** The argument is [None] for a track that is [undefined]; the result is
    [None] for [null]. *)
Definition evaluateTrack (track : option Track) (time : R) : outcome (option Euler) :=
  match track with
  | None => Returned None
  | Some tr =>
      if Nat.eqb (List.length tr) 0 then Returned None
      else
        let frameIdx :=
          match findFrame tr time 0 with
          | Some i => i
          | None => 0%nat
          end in
        match nth_error tr (List.length tr - 1) with
        | None => TypeError
        | Some last =>
            if Rge_dec time (t last) then
              Returned (Some (mkEuler (v0 last * D2R) (v1 last * D2R) (v2 last * D2R)))
            else
              match nth_error tr frameIdx, nth_error tr (frameIdx + 1) with
              | Some k1, Some k2 =>
                  let duration := t k2 - t k1 in
                  let pct := (time - t k1) / duration in
                  Returned
                    (Some (mkEuler (lerp (v0 k1) (v0 k2) pct * D2R)
                                   (lerp (v1 k1) (v1 k2) pct * D2R)
                                   (lerp (v2 k1) (v2 k2) pct * D2R)))
              | _, _ => TypeError
              end
        end
  end.

(** The sampling loop of [Stick3D]:
    [for (let i = 0; i <= segments; i++) points.push(stick.queryPNormalize(i / segments))]. *)
Definition segments : nat := 30.

Definition curvePoints (stick : Stick.t) : list Vector3 :=
  map (fun i => Stick.queryPNormalize stick (INR i / INR segments))
      (seq 0 (S segments)).

End StickVisualizer.

(** ** App.tsx: the pointer handler *)

Module App.

Inductive SwingMode : Type :=
| manual | idle | slash_h | slash_v | chop | whirlwind | stab | combo.

(** [getBoundingClientRect()] of the container, as far as the handler reads it. *)
Record DOMRect : Type := mkDOMRect { left : R; top : R; width : R; height : R }.

(** [handleMouseMove]: the value of the [manualPos] state after the event;
    [container] is [None] when [containerRef.current] is [null]. *)
Definition handleMouseMove (swingMode : SwingMode) (container : option DOMRect)
    (clientX clientY : R) (manualPos : R * R) : R * R :=
  match swingMode, container with
  | manual, Some rect =>
      let x0 := (clientX - left rect) / width rect in
      let y0 := (clientY - top rect) / height rect in
      ((x0 - 5 / 10) * 2, - (y0 - 5 / 10) * 2)
  | _, _ => manualPos
  end.

End App.

(** ** Measures used in the statements about tracks and rest poses *)

(** Keyframe times strictly increase along the track. *)
Fixpoint increasing (tr : StickVisualizer.Track) : Prop :=
  match tr with
  | [] => True
  | k :: rest =>
      Forall (fun k' => StickVisualizer.t k < StickVisualizer.t k') rest
      /\ increasing rest
  end.

(** [v * D2R], component by component. *)
Definition eulerOf (k : StickVisualizer.Keyframe) : StickVisualizer.Euler :=
  StickVisualizer.mkEuler (StickVisualizer.v0 k * StickVisualizer.D2R)
                          (StickVisualizer.v1 k * StickVisualizer.D2R)
                          (StickVisualizer.v2 k * StickVisualizer.D2R).

(** The [spine] track of the [idle] clip. *)
Definition idleSpine : StickVisualizer.Track :=
  [ StickVisualizer.mkKeyframe 0 (0, 0, 0);
    StickVisualizer.mkKeyframe 2 (5, 2, 0);
    StickVisualizer.mkKeyframe 4 (0, 0, 0) ].

(** The stick of [App.tsx] gripped at a quarter of its length. *)
Definition grippedProps : ElasticProperties := set_gripRatio defaultProps (Some (1 / 4)).

(** ** Vector algebra *)

Section VectorFacts.

Implicit Types a b v : Vector3.

Lemma vec_ext a b : x a = x b -> y a = y b -> z a = z b -> a = b.
Proof. destruct a, b; simpl; intros -> -> ->; reflexivity. Qed.

Lemma sumsq_nonneg (p q r : R) : 0 <= p * p + q * q + r * r.
Proof. nra. Qed.

Lemma sumsq_zero (p q r : R) :
  p * p + q * q + r * r = 0 -> p = 0 /\ q = 0 /\ r = 0.
Proof. intros H; repeat split; nra. Qed.

Lemma length_nonneg v : 0 <= Vec3.length v.
Proof. apply sqrt_pos. Qed.

Lemma length_sqr v :
  Vec3.length v * Vec3.length v = x v * x v + y v * y v + z v * z v.
Proof. unfold Vec3.length. apply sqrt_sqrt, sumsq_nonneg. Qed.

Lemma length_zero_vec : Vec3.length (mkVector3 0 0 0) = 0.
Proof.
  unfold Vec3.length; simpl.
  replace (0 * 0 + 0 * 0 + 0 * 0) with 0 by ring. apply sqrt_0.
Qed.

Lemma length_eq_0 v : Vec3.length v = 0 -> v = mkVector3 0 0 0.
Proof.
  intros H. apply sqrt_eq_0 in H; [| apply sumsq_nonneg].
  destruct (sumsq_zero _ _ _ H) as (Hx & Hy & Hz).
  apply vec_ext; assumption.
Qed.

Lemma length_of_sq (l : R) v :
  0 <= l -> x v * x v + y v * y v + z v * z v = l * l -> Vec3.length v = l.
Proof.
  intros Hl H. unfold Vec3.length. rewrite H. apply sqrt_square, Hl.
Qed.

Lemma length_scale v (s : R) :
  Vec3.length (Vec3.scale v s) = Vec3.length v * Rabs s.
Proof.
  apply length_of_sq.
  - apply Rmult_le_pos; [apply length_nonneg | apply Rabs_pos].
  - simpl.
    replace (Vec3.length v * Rabs s * (Vec3.length v * Rabs s))
      with ((Vec3.length v * Vec3.length v) * (Rabs s * Rabs s)) by ring.
    rewrite length_sqr.
    replace (Rabs s * Rabs s) with (s * s).
    + ring.
    + unfold Rabs; destruct (Rcase_abs s); ring.
Qed.

Lemma normalize_zero_vec : Vec3.normalize (mkVector3 0 0 0) = mkVector3 0 0 0.
Proof.
  unfold Vec3.normalize.
  destruct (Req_dec_T _ 0) as [_ | H]; [reflexivity |].
  exfalso; apply H. apply length_zero_vec.
Qed.

Lemma normalize_nonzero v :
  Vec3.length v <> 0 ->
  Vec3.normalize v =
  mkVector3 (x v / Vec3.length v) (y v / Vec3.length v) (z v / Vec3.length v).
Proof.
  intros H. unfold Vec3.normalize.
  destruct (Req_dec_T _ 0) as [E | _]; [contradiction H | reflexivity].
Qed.

Lemma normalize_as_scale v :
  Vec3.length v <> 0 -> Vec3.normalize v = Vec3.scale v (1 / Vec3.length v).
Proof.
  intros H. rewrite (normalize_nonzero _ H).
  apply vec_ext; simpl; field; exact H.
Qed.

Lemma normalize_length v :
  Vec3.length v <> 0 -> Vec3.length (Vec3.normalize v) = 1.
Proof.
  intros H. rewrite (normalize_as_scale _ H), length_scale.
  pose proof (length_nonneg v) as Hp.
  assert (0 < Vec3.length v) as Hl by lra.
  rewrite Rabs_right.
  - field; exact H.
  - apply Rle_ge. unfold Rdiv. rewrite Rmult_1_l.
    left. apply Rinv_0_lt_compat, Hl.
Qed.

(** [normalize v * |v|] gives [v] back, the zero vector included. *)
Lemma normalize_scale_length v :
  Vec3.scale (Vec3.normalize v) (Vec3.length v) = v.
Proof.
  destruct (Req_dec_T (Vec3.length v) 0) as [E | N].
  - rewrite (length_eq_0 _ E), normalize_zero_vec.
    apply vec_ext; simpl; ring.
  - rewrite (normalize_nonzero _ N).
    apply vec_ext; simpl; field; exact N.
Qed.

Lemma sub_add_l a b : Vec3.sub (Vec3.add a b) a = b.
Proof. apply vec_ext; simpl; ring. Qed.

Lemma add_sub_r a b : Vec3.add a (Vec3.sub b a) = b.
Proof. apply vec_ext; simpl; ring. Qed.

Lemma sub_self a : Vec3.sub a a = mkVector3 0 0 0.
Proof. apply vec_ext; simpl; ring. Qed.

Lemma scale_zero_r v : Vec3.scale v 0 = mkVector3 0 0 0.
Proof. apply vec_ext; simpl; ring. Qed.

Lemma scale_one_r v : Vec3.scale v 1 = v.
Proof. apply vec_ext; simpl; ring. Qed.

Lemma add_zero_r v : Vec3.add v (mkVector3 0 0 0) = v.
Proof. apply vec_ext; simpl; ring. Qed.

Lemma distance_as_length a b : Vec3.distance a b = Vec3.length (Vec3.sub a b).
Proof. reflexivity. Qed.

End VectorFacts.

(** ** Frame lemmas: what a sub-step and a swing leave alone *)

Section Frame.

Import Stick.

Lemma step_length s a dt : length (performPhysicsStep s a dt) = length s.
Proof. reflexivity. Qed.

Lemma step_props s a dt : props (performPhysicsStep s a dt) = props s.
Proof. reflexivity. Qed.

Lemma step_handlePos s a dt : handlePos (performPhysicsStep s a dt) = handlePos s.
Proof. reflexivity. Qed.

Lemma step_handleDir s a dt : handleDir (performPhysicsStep s a dt) = handleDir s.
Proof. reflexivity. Qed.

Lemma loop_frame n : forall s a dt,
  length (subStepLoop n s a dt) = length s /\
  props (subStepLoop n s a dt) = props s /\
  handlePos (subStepLoop n s a dt) = handlePos s /\
  handleDir (subStepLoop n s a dt) = handleDir s.
Proof.
  induction n as [| n IH]; intros s a dt; simpl.
  - repeat split.
  - destruct (IH (performPhysicsStep s a dt) a dt) as (H1 & H2 & H3 & H4).
    rewrite H1, H2, H3, H4. repeat split.
Qed.

(** The last of [S n] sub-steps is a [performPhysicsStep] of the state that
    the first [n] produce. *)
Lemma loop_last n : forall s a dt,
  subStepLoop (S n) s a dt = performPhysicsStep (subStepLoop n s a dt) a dt.
Proof.
  induction n as [| n IH]; intros s a dt.
  - reflexivity.
  - change (subStepLoop (S (S n)) s a dt)
      with (subStepLoop (S n) (performPhysicsStep s a dt) a dt).
    rewrite IH. reflexivity.
Qed.

Lemma swing_frame s h d dt :
  length (swing s h d dt) = length s /\
  props (swing s h d dt) = props s /\
  handlePos (swing s h d dt) = h /\
  handleDir (swing s h d dt) = Vec3.normalize d.
Proof.
  unfold swing.
  destruct (Rlt_dec _ _) as [Hd | Hd].
  - repeat split.
  - match goal with
    | |- context [subStepLoop ?n ?s0 ?a ?e] =>
        destruct (loop_frame n s0 a e) as (H1 & H2 & H3 & H4)
    end.
    rewrite H1, H2, H3, H4. repeat split.
Qed.

Lemma swing_activeLength s h d dt :
  activeLengthOf (swing s h d dt) = activeLengthOf s.
Proof.
  unfold activeLengthOf.
  destruct (swing_frame s h d dt) as (H1 & H2 & _).
  rewrite H1, H2. reflexivity.
Qed.

End Frame.

(** ** [Vec3.normalize] *)

Lemma nonzero_length v : v <> mkVector3 0 0 0 -> Vec3.length v <> 0.
Proof. intros Hv E. apply Hv, length_eq_0, E. Qed.

Lemma normalize_checked_total v :
  Vec3.normalize_checked v = Some (Vec3.normalize v).
Proof.
  unfold Vec3.normalize_checked, Vec3.normalize, Vec3.div_checked.
  destruct (Req_dec_T (sqrt _) 0) as [E | N]; reflexivity.
Qed.

(** C8. [Vec3.normalize] maps the zero-length vector to [(0,0,0)]; on no
    input does it evaluate a division whose divisor is zero (the checked
    variant never reports one and agrees with [normalize]); and a nonzero
    input is returned divided, component by component, by its Euclidean
    length. *)
Theorem normalize_degenerate_policy :
  Vec3.normalize (mkVector3 0 0 0) = mkVector3 0 0 0 /\
  (forall v, Vec3.normalize_checked v = Some (Vec3.normalize v)) /\
  (forall v, v <> mkVector3 0 0 0 ->
     Vec3.length v <> 0 /\
     Vec3.normalize v =
     mkVector3 (x v / Vec3.length v) (y v / Vec3.length v) (z v / Vec3.length v)).
Proof.
  split; [apply normalize_zero_vec |].
  split; [apply normalize_checked_total |].
  intros v Hv. pose proof (nonzero_length v Hv) as N.
  split; [exact N | apply normalize_nonzero, N].
Qed.

Lemma v304_nonzero : mkVector3 3 0 4 <> mkVector3 0 0 0.
Proof. intros H. apply (f_equal x) in H. simpl in H. lra. Defined.

Lemma normalize_degenerate_policy_witness :
  Vec3.length (mkVector3 3 0 4) <> 0 /\
  Vec3.normalize (mkVector3 3 0 4) =
  mkVector3 (3 / Vec3.length (mkVector3 3 0 4))
            (0 / Vec3.length (mkVector3 3 0 4))
            (4 / Vec3.length (mkVector3 3 0 4)).
Proof.
  destruct normalize_degenerate_policy as (_ & _ & H).
  exact (H (mkVector3 3 0 4) v304_nonzero).
Defined.

(** ** The handle direction *)

Lemma normalize_unit_or_zero v :
  Vec3.length (Vec3.normalize v) = 1 \/ Vec3.normalize v = mkVector3 0 0 0.
Proof.
  destruct (Req_dec_T (Vec3.length v) 0) as [E | N].
  - right. rewrite (length_eq_0 _ E). apply normalize_zero_vec.
  - left. apply normalize_length, N.
Qed.

(** Over the states a caller can reach, the handle direction is a unit
    vector or the zero vector. *)
Lemma reachable_handleDir s :
  Stick.reachable s ->
  Vec3.length (Stick.handleDir s) = 1 \/ Stick.handleDir s = mkVector3 0 0 0.
Proof.
  induction 1 as [L p | s L p _ IH | s _ IH | s h d dt _ _].
  - left. simpl. apply length_of_sq; simpl; lra.
  - exact IH.
  - exact IH.
  - destruct (swing_frame s h d dt) as (_ & _ & _ & H). rewrite H.
    apply normalize_unit_or_zero.
Qed.

(** C7, as stated, fails: a swing driven with the zero direction stores the
    zero vector, whose length is [0], as the handle direction. *)
Lemma handleDir_unit_counterexample :
  Vec3.length
    (Stick.handleDir
       (Stick.swing (Stick.constructor 100 defaultProps)
                    (mkVector3 0 0 0) (mkVector3 0 0 0) (1 / 60))) <> 1.
Proof.
  destruct (swing_frame (Stick.constructor 100 defaultProps)
              (mkVector3 0 0 0) (mkVector3 0 0 0) (1 / 60)) as (_ & _ & _ & H).
  rewrite H, normalize_zero_vec, length_zero_vec. lra.
Qed.

(** C7, amended. The handle direction is unit-length after construction and
    after every swing whose direction argument is not the zero vector,
    normalized or not; a swing with the zero direction stores the zero
    vector.  In every reachable state the handle direction is therefore a
    unit vector or the zero vector. *)
Theorem handleDir_unit_nonzero :
  (forall length0 props0,
     Vec3.length (Stick.handleDir (Stick.constructor length0 props0)) = 1) /\
  (forall s h d dt, d <> mkVector3 0 0 0 ->
     Vec3.length (Stick.handleDir (Stick.swing s h d dt)) = 1) /\
  (forall s h dt,
     Stick.handleDir (Stick.swing s h (mkVector3 0 0 0) dt) = mkVector3 0 0 0) /\
  (forall s, Stick.reachable s ->
     Vec3.length (Stick.handleDir s) = 1 \/ Stick.handleDir s = mkVector3 0 0 0).
Proof.
  split; [| split; [| split; [| exact reachable_handleDir]]].
  - intros length0 props0. simpl.
    apply length_of_sq; simpl; lra.
  - intros s h d dt Hd.
    destruct (swing_frame s h d dt) as (_ & _ & _ & H). rewrite H.
    apply normalize_length, nonzero_length, Hd.
  - intros s h dt.
    destruct (swing_frame s h (mkVector3 0 0 0) dt) as (_ & _ & _ & H).
    rewrite H. apply normalize_zero_vec.
Qed.

Lemma handleDir_unit_nonzero_witness :
  Vec3.length
    (Stick.handleDir
       (Stick.swing (Stick.constructor 100 defaultProps)
                    (mkVector3 1 2 3) (mkVector3 3 0 4) (1 / 60))) = 1.
Proof.
  destruct handleDir_unit_nonzero as (_ & H & _).
  exact (H (Stick.constructor 100 defaultProps)
           (mkVector3 1 2 3) (mkVector3 3 0 4) (1 / 60) v304_nonzero).
Defined.

(** ** The degenerate rod *)

(** C4. When [length * (1 - gripRatio) < 0.1] a swing stores the handle pose
    and sets both tip positions to the handle position it was given; the
    result does not depend on [dt] or on the previous tip positions, no
    sub-step having run.  A stick built with length [1] and grip ratio
    [0.95] is such a rod. *)
Theorem swing_degenerate_rod :
  (forall s h d dt, Stick.activeLengthOf s < 1 / 10 ->
     Stick.tipPos (Stick.swing s h d dt) = h /\
     Stick.oldTipPos (Stick.swing s h d dt) = h /\
     Stick.swing s h d dt =
     Stick.mk (Stick.length s) (Stick.props s) h (Vec3.normalize d) h h) /\
  (forall p h d dt,
     Stick.tipPos
       (Stick.swing (Stick.constructor 1 (set_gripRatio p (Some (95 / 100)))) h d dt)
     = h).
Proof.
  assert (forall s h d dt, Stick.activeLengthOf s < 1 / 10 ->
            Stick.swing s h d dt =
            Stick.mk (Stick.length s) (Stick.props s) h (Vec3.normalize d) h h)
    as Hsnap.
  { intros s h d dt Ha. unfold Stick.swing.
    destruct (Rlt_dec _ _) as [_ | Hn]; [reflexivity |].
    exfalso; apply Hn, Ha. }
  split.
  - intros s h d dt Ha. rewrite (Hsnap s h d dt Ha). repeat split.
  - intros p h d dt. rewrite Hsnap; [reflexivity |].
    unfold Stick.activeLengthOf; simpl.
    destruct (Req_dec_T (95 / 100) 0) as [E | _]; lra.
Qed.

Lemma swing_degenerate_rod_witness :
  Stick.tipPos
    (Stick.swing (Stick.constructor 1 (set_gripRatio defaultProps (Some (95 / 100))))
                 (mkVector3 1 2 3) (mkVector3 3 0 4) (1 / 60)) = mkVector3 1 2 3 /\
  Stick.oldTipPos
    (Stick.swing (Stick.constructor 1 (set_gripRatio defaultProps (Some (95 / 100))))
                 (mkVector3 1 2 3) (mkVector3 3 0 4) (1 / 60)) = mkVector3 1 2 3.
Proof.
  destruct swing_degenerate_rod as (H & _).
  assert (Stick.activeLengthOf
            (Stick.constructor 1 (set_gripRatio defaultProps (Some (95 / 100))))
          < 1 / 10) as Ha.
  { unfold Stick.activeLengthOf; simpl.
    destruct (Req_dec_T (95 / 100) 0) as [E | _]; lra. }
  destruct (H _ (mkVector3 1 2 3) (mkVector3 3 0 4) (1 / 60) Ha) as (H1 & H2 & _).
  split; assumption.
Defined.

(** ** Reset and construction *)

(** C5. A second reset changes nothing, and right after a reset the previous
    tip position is the tip position, which is
    [handlePos + handleDir * activeLength], so that the implicit velocity
    [tipPos - oldTipPos] is the zero vector. *)
Theorem reset_idempotent_zero_velocity (s : Stick.t) :
  Stick.reset (Stick.reset s) = Stick.reset s /\
  Stick.tipPos (Stick.reset s) =
    Vec3.add (Stick.handlePos s)
             (Vec3.scale (Stick.handleDir s) (Stick.activeLengthOf s)) /\
  Stick.oldTipPos (Stick.reset s) = Stick.tipPos (Stick.reset s) /\
  Vec3.sub (Stick.tipPos (Stick.reset s)) (Stick.oldTipPos (Stick.reset s))
    = mkVector3 0 0 0.
Proof.
  repeat split. simpl. apply sub_self.
Qed.

Lemma or_default_some_0 (g : R) : or_default (Some g) 0 = g.
Proof. simpl. destruct (Req_dec_T g 0) as [E | _]; [symmetry; exact E | reflexivity]. Qed.

(** C9. A new stick has its handle at the origin pointing along [+y]; since
    the constructor ends in [reset], its tip is at
    [(0, L * (1 - gripRatio), 0)] and the previous tip position equals it.
    That is not the [(0, L, 0)] the constructor assigns first, unless
    [L * gripRatio = 0]. *)
Theorem constructor_state (L : R) (p : ElasticProperties) :
  Stick.handlePos (Stick.constructor L p) = mkVector3 0 0 0 /\
  Stick.handleDir (Stick.constructor L p) = mkVector3 0 1 0 /\
  Stick.tipPos (Stick.constructor L p) =
    mkVector3 0 (L * (1 - or_default (gripRatio p) 0)) 0 /\
  Stick.oldTipPos (Stick.constructor L p) = Stick.tipPos (Stick.constructor L p) /\
  (forall g, gripRatio p = Some g ->
     Stick.tipPos (Stick.constructor L p) = mkVector3 0 (L * (1 - g)) 0 /\
     (L * g <> 0 -> Stick.tipPos (Stick.constructor L p) <> mkVector3 0 L 0)).
Proof.
  assert (Stick.tipPos (Stick.constructor L p) =
          mkVector3 0 (L * (1 - or_default (gripRatio p) 0)) 0) as Htip.
  { apply vec_ext; simpl; ring. }
  repeat split; try assumption.
  - rewrite Htip, H, or_default_some_0. reflexivity.
  - intros Hne E. rewrite Htip, H, or_default_some_0 in E.
    apply (f_equal y) in E. simpl in E. apply Hne. lra.
Qed.

Lemma constructor_state_witness :
  Stick.tipPos (Stick.constructor 100 (set_gripRatio defaultProps (Some (1 / 4))))
    = mkVector3 0 (100 * (1 - 1 / 4)) 0 /\
  Stick.tipPos (Stick.constructor 100 (set_gripRatio defaultProps (Some (1 / 4))))
    <> mkVector3 0 100 0.
Proof.
  destruct (constructor_state 100 (set_gripRatio defaultProps (Some (1 / 4))))
    as (_ & _ & _ & _ & H).
  destruct (H (1 / 4) eq_refl) as (H1 & H2).
  split; [exact H1 | apply H2; lra].
Defined.

(** ** The cap on the stretched length *)

Section StretchCap.

Import Stick.

Lemma stretchClamp_bound s a p :
  0 <= a * or_default (maxStretchRatio (props s)) (15 / 10) ->
  Vec3.length (Vec3.sub (stretchClamp s a p) (handlePos s))
  <= a * or_default (maxStretchRatio (props s)) (15 / 10).
Proof.
  intros Hpos. unfold stretchClamp.
  set (cap := a * or_default (maxStretchRatio (props s)) (15 / 10)) in *.
  destruct (Rgt_dec _ cap) as [Hgt | Hle].
  - rewrite sub_add_l, length_scale, normalize_length.
    + rewrite Rabs_right; lra.
    + lra.
  - lra.
Qed.

Lemma step_tip_bound s a dt :
  0 <= a * or_default (maxStretchRatio (props s)) (15 / 10) ->
  Vec3.length (Vec3.sub (tipPos (performPhysicsStep s a dt))
                        (handlePos (performPhysicsStep s a dt)))
  <= a * or_default (maxStretchRatio (props s)) (15 / 10).
Proof. intros H. simpl. apply stretchClamp_bound, H. Qed.

Lemma loop_tip_bound n s a dt :
  0 <= a * or_default (maxStretchRatio (props s)) (15 / 10) ->
  Vec3.length (Vec3.sub (tipPos (subStepLoop (S n) s a dt))
                        (handlePos (subStepLoop (S n) s a dt)))
  <= a * or_default (maxStretchRatio (props s)) (15 / 10).
Proof.
  intros H. rewrite loop_last.
  destruct (loop_frame n s a dt) as (_ & Hp & _).
  rewrite <- Hp in *. apply step_tip_bound, H.
Qed.

(** After a swing of a rod that is not degenerate the tip is within
    [activeLength * (maxStretchRatio || 1.5)] of the handle, whenever that
    product is not negative. *)
Lemma swing_tip_bound s h d dt :
  1 / 10 <= activeLengthOf s ->
  0 <= or_default (maxStretchRatio (props s)) (15 / 10) ->
  Vec3.distance (tipPos (swing s h d dt)) (handlePos (swing s h d dt))
  <= activeLengthOf s * or_default (maxStretchRatio (props s)) (15 / 10).
Proof.
  intros Ha Hm. rewrite distance_as_length.
  unfold swing. fold (activeLengthOf s).
  destruct (Rlt_dec _ _) as [Hd | _]; [lra |].
  unfold subSteps.
  match goal with
  | |- context [subStepLoop _ ?s0 _ ?e] =>
      apply (loop_tip_bound 7 s0 (activeLengthOf s) e)
  end.
  simpl. apply Rmult_le_pos; lra.
Qed.

Lemma or_default_nonzero (m d : R) : m <> 0 -> or_default (Some m) d = m.
Proof. intros H. simpl. destruct (Req_dec_T m 0); [contradiction | reflexivity]. Qed.

Lemma or_default_zero (d : R) : or_default (Some 0) d = d.
Proof. simpl. destruct (Req_dec_T 0 0) as [_ | N]; [reflexivity | contradiction N; reflexivity]. Qed.

End StretchCap.

(** C1. For a configuration with [maxStretchRatio >= 1] and an active length
    [length * (1 - gripRatio)] that is not negative, every swing, from any
    state (reachable or not), with any handle pose and any [dt], leaves the
    tip within [activeLength * maxStretchRatio] of the handle position. *)
Theorem max_stretch_invariant (s : Stick.t) (h d : Vector3) (dt m : R) :
  maxStretchRatio (Stick.props s) = Some m ->
  1 <= m ->
  0 <= Stick.activeLengthOf s ->
  Vec3.distance (Stick.tipPos (Stick.swing s h d dt))
                (Stick.handlePos (Stick.swing s h d dt))
  <= Stick.activeLengthOf s * m.
Proof.
  intros Hm Hge Ha.
  destruct (Rlt_dec (Stick.activeLengthOf s) (1 / 10)) as [Hdeg | Hnd].
  - unfold Stick.swing. fold (Stick.activeLengthOf s).
    destruct (Rlt_dec _ _) as [_ | N]; [| contradiction].
    rewrite distance_as_length. simpl.
    rewrite sub_self, length_zero_vec.
    apply Rmult_le_pos; lra.
  - pose proof (swing_tip_bound s h d dt) as B.
    rewrite Hm, or_default_nonzero in B by lra.
    apply B; lra.
Qed.

Lemma max_stretch_invariant_witness :
  Vec3.distance
    (Stick.tipPos (Stick.swing (Stick.constructor 100 defaultProps)
                               (mkVector3 1 2 3) (mkVector3 3 0 4) (1 / 60)))
    (Stick.handlePos (Stick.swing (Stick.constructor 100 defaultProps)
                                  (mkVector3 1 2 3) (mkVector3 3 0 4) (1 / 60)))
  <= Stick.activeLengthOf (Stick.constructor 100 defaultProps) * (15 / 10).
Proof.
  apply (max_stretch_invariant (Stick.constructor 100 defaultProps)
           (mkVector3 1 2 3) (mkVector3 3 0 4) (1 / 60) (15 / 10)).
  - reflexivity.
  - lra.
  - unfold Stick.activeLengthOf; simpl.
    destruct (Req_dec_T 0 0) as [_ | N]; lra.
Defined.

(** ** A falsy [maxStretchRatio] *)

Section FalsyRatio.

Import Stick.

Lemma stretchClamp_ratio_zero s a p :
  maxStretchRatio (props s) = Some 0 ->
  stretchClamp s a p =
  if Rgt_dec (Vec3.length (Vec3.sub p (handlePos s))) (a * (15 / 10))
  then Vec3.add (handlePos s)
         (Vec3.scale (Vec3.normalize (Vec3.sub p (handlePos s))) (a * (15 / 10)))
  else p.
Proof.
  intros Hm. unfold stretchClamp. rewrite Hm, or_default_zero. reflexivity.
Qed.

Lemma stretchClamp_ratio_default s a p :
  maxStretchRatio (props s) = Some 0 ->
  stretchClamp (with_props s (set_maxStretchRatio (props s) (Some (15 / 10)))) a p
  = stretchClamp s a p.
Proof.
  intros Hm. rewrite (stretchClamp_ratio_zero s a p Hm).
  unfold stretchClamp; simpl.
  destruct (Req_dec_T (15 / 10) 0) as [E | _]; [lra | reflexivity].
Qed.

Lemma step_ratio_default s q a dt :
  maxStretchRatio (props s) = Some 0 ->
  q = set_maxStretchRatio (props s) (Some (15 / 10)) ->
  performPhysicsStep (with_props s q) a dt = with_props (performPhysicsStep s a dt) q.
Proof.
  intros Hm ->. unfold performPhysicsStep.
  rewrite (stretchClamp_ratio_default s a _ Hm).
  reflexivity.
Qed.

Lemma loop_ratio_default n : forall s q a dt,
  maxStretchRatio (props s) = Some 0 ->
  q = set_maxStretchRatio (props s) (Some (15 / 10)) ->
  subStepLoop n (with_props s q) a dt = with_props (subStepLoop n s a dt) q.
Proof.
  induction n as [| n IH]; intros s q a dt Hm Hq; simpl.
  - reflexivity.
  - rewrite (step_ratio_default s q a dt Hm Hq).
    apply IH; assumption.
Qed.

End FalsyRatio.

(** C10. With [maxStretchRatio] equal to [0] the hard stretch clamp of a
    sub-step caps the distance at [activeLength * 1.5]: the ratio read is
    [1.5], and a swing moves the tip exactly as it does under the same
    configuration with [maxStretchRatio = 1.5]. *)
Theorem falsy_maxStretchRatio_uses_default (s : Stick.t) :
  maxStretchRatio (Stick.props s) = Some 0 ->
  or_default (maxStretchRatio (Stick.props s)) (15 / 10) = 15 / 10 /\
  (forall a p,
     Stick.stretchClamp s a p =
     if Rgt_dec (Vec3.length (Vec3.sub p (Stick.handlePos s))) (a * (15 / 10))
     then Vec3.add (Stick.handlePos s)
            (Vec3.scale (Vec3.normalize (Vec3.sub p (Stick.handlePos s)))
                        (a * (15 / 10)))
     else p) /\
  (forall h d dt,
     Stick.swing
       (with_props s (set_maxStretchRatio (Stick.props s) (Some (15 / 10)))) h d dt
     = with_props (Stick.swing s h d dt)
         (set_maxStretchRatio (Stick.props s) (Some (15 / 10)))).
Proof.
  intros Hm. split; [rewrite Hm; apply or_default_zero |].
  split; [intros a p; apply stretchClamp_ratio_zero, Hm |].
  intros h d dt. unfold Stick.swing. simpl.
  destruct (Rlt_dec _ _) as [Hd | Hd]; [reflexivity |].
  set (s1 := Stick.mk (Stick.length s) (Stick.props s) h (Vec3.normalize d)
                      (Stick.tipPos s) (Stick.oldTipPos s)).
  apply (loop_ratio_default Stick.subSteps s1 _ _ _ Hm eq_refl).
Qed.

Lemma falsy_maxStretchRatio_uses_default_witness :
  or_default
    (maxStretchRatio
       (Stick.props (Stick.constructor 100 (set_maxStretchRatio defaultProps (Some 0)))))
    (15 / 10) = 15 / 10.
Proof.
  destruct (falsy_maxStretchRatio_uses_default
              (Stick.constructor 100 (set_maxStretchRatio defaultProps (Some 0)))
              eq_refl) as (H & _).
  exact H.
Defined.

(** ** The curve query at its landmarks *)

Section QueryLandmarks.

Import Stick.

(** The cubic Bezier blend of [queryPNormalize], at segment parameter [0]
    and [1]. *)
Lemma bezier_at_0 (p0 p1 p2 p3 : Vector3) (u sT : R) :
  sT = 0 -> u = 1 - sT ->
  Vec3.add (Vec3.add (Vec3.scale p0 (u * u * u)) (Vec3.scale p1 (3 * (u * u) * sT)))
           (Vec3.add (Vec3.scale p2 (3 * u * (sT * sT)))
                     (Vec3.scale p3 (sT * sT * sT))) = p0.
Proof. intros -> ->. apply vec_ext; simpl; ring. Qed.

Lemma bezier_at_1 (p0 p1 p2 p3 : Vector3) (u sT : R) :
  sT = 1 -> u = 1 - sT ->
  Vec3.add (Vec3.add (Vec3.scale p0 (u * u * u)) (Vec3.scale p1 (3 * (u * u) * sT)))
           (Vec3.add (Vec3.scale p2 (3 * u * (sT * sT)))
                     (Vec3.scale p3 (sT * sT * sT))) = p3.
Proof. intros -> ->. apply vec_ext; simpl; ring. Qed.

(** At the grip parameter the query returns the handle position, whatever
    the state. *)
Lemma query_at_grip s :
  queryPNormalize s (or_default (gripRatio (props s)) 0) = handlePos s.
Proof.
  unfold queryPNormalize.
  set (g := or_default (gripRatio (props s)) 0).
  destruct (Rlt_dec g g) as [Hlt | _]; [lra |].
  destruct (Rle_dec _ _) as [_ | Hact]; [reflexivity |].
  apply bezier_at_0; [unfold Rdiv; ring | reflexivity].
Qed.

Lemma query_at_one_active s :
  or_default (gripRatio (props s)) 0 <= 1 ->
  1 / 10 < activeLengthOf s ->
  queryPNormalize s 1 = tipPos s.
Proof.
  unfold queryPNormalize, activeLengthOf.
  set (g := or_default (gripRatio (props s)) 0).
  intros Hg Hact.
  destruct (Rlt_dec 1 g) as [Hlt | _]; [lra |].
  destruct (Rle_dec _ _) as [Hle | _]; [lra |].
  apply bezier_at_1; [| reflexivity].
  assert (1 - g <> 0) as Hne by (intros E; rewrite E in Hact; lra).
  field. exact Hne.
Qed.

Lemma query_at_one_degenerate s :
  or_default (gripRatio (props s)) 0 <= 1 ->
  activeLengthOf s <= 1 / 10 ->
  queryPNormalize s 1 = handlePos s.
Proof.
  unfold queryPNormalize, activeLengthOf.
  set (g := or_default (gripRatio (props s)) 0).
  intros Hg Hact.
  destruct (Rlt_dec 1 g) as [Hlt | _]; [lra |].
  destruct (Rle_dec _ _) as [_ | Hn]; [reflexivity | contradiction].
Qed.

End QueryLandmarks.

(** C6, as stated, fails: on the stick built with length [1] and grip ratio
    [0.95] the query at [1] returns the handle position [(0,0,0)], while the
    tip is at [(0, 0.05, 0)]. *)
Lemma query_boundary_counterexample :
  Stick.queryPNormalize
    (Stick.constructor 1 (set_gripRatio defaultProps (Some (95 / 100)))) 1
  <> Stick.tipPos
       (Stick.constructor 1 (set_gripRatio defaultProps (Some (95 / 100)))).
Proof.
  rewrite query_at_one_degenerate.
  - simpl. intros E. apply (f_equal y) in E. simpl in E.
    destruct (Req_dec_T (95 / 100) 0) as [E0 | _]; lra.
  - simpl. destruct (Req_dec_T (95 / 100) 0); lra.
  - unfold Stick.activeLengthOf; simpl.
    destruct (Req_dec_T (95 / 100) 0); lra.
Qed.

(** C6, amended. With [gripRatio <= 1], the query at [1] is the tip position
    when the active length exceeds [0.1], and the handle position when it
    does not.  The query at [gripRatio], for [gripRatio > 0], and the query
    at [0], for [gripRatio = 0], are the handle position. *)
Theorem query_boundary_consistency (s : Stick.t) :
  (or_default (gripRatio (Stick.props s)) 0 <= 1 ->
   1 / 10 < Stick.activeLengthOf s ->
   Stick.queryPNormalize s 1 = Stick.tipPos s) /\
  (or_default (gripRatio (Stick.props s)) 0 <= 1 ->
   Stick.activeLengthOf s <= 1 / 10 ->
   Stick.queryPNormalize s 1 = Stick.handlePos s) /\
  (forall g, gripRatio (Stick.props s) = Some g -> 0 < g ->
   Stick.queryPNormalize s g = Stick.handlePos s) /\
  (gripRatio (Stick.props s) = Some 0 ->
   Stick.queryPNormalize s 0 = Stick.handlePos s).
Proof.
  split; [apply query_at_one_active |].
  split; [apply query_at_one_degenerate |].
  split.
  - intros g Hg _. pose proof (query_at_grip s) as H.
    rewrite Hg, or_default_some_0 in H. exact H.
  - intros Hg. pose proof (query_at_grip s) as H.
    rewrite Hg, or_default_some_0 in H. exact H.
Qed.

Lemma query_boundary_consistency_witness :
  Stick.queryPNormalize
    (Stick.constructor 100 (set_gripRatio defaultProps (Some (1 / 4)))) 1
  = Stick.tipPos (Stick.constructor 100 (set_gripRatio defaultProps (Some (1 / 4)))) /\
  Stick.queryPNormalize
    (Stick.constructor 1 (set_gripRatio defaultProps (Some (95 / 100)))) 1
  = Stick.handlePos (Stick.constructor 1 (set_gripRatio defaultProps (Some (95 / 100)))) /\
  Stick.queryPNormalize
    (Stick.constructor 100 (set_gripRatio defaultProps (Some (1 / 4)))) (1 / 4)
  = Stick.handlePos (Stick.constructor 100 (set_gripRatio defaultProps (Some (1 / 4)))) /\
  Stick.queryPNormalize (Stick.constructor 100 defaultProps) 0
  = Stick.handlePos (Stick.constructor 100 defaultProps).
Proof.
  split; [| split; [| split]].
  - destruct (query_boundary_consistency
                (Stick.constructor 100 (set_gripRatio defaultProps (Some (1 / 4)))))
      as (H & _).
    apply H.
    + simpl. destruct (Req_dec_T (1 / 4) 0); lra.
    + unfold Stick.activeLengthOf; simpl. destruct (Req_dec_T (1 / 4) 0); lra.
  - destruct (query_boundary_consistency
                (Stick.constructor 1 (set_gripRatio defaultProps (Some (95 / 100)))))
      as (_ & H & _).
    apply H.
    + simpl. destruct (Req_dec_T (95 / 100) 0); lra.
    + unfold Stick.activeLengthOf; simpl. destruct (Req_dec_T (95 / 100) 0); lra.
  - destruct (query_boundary_consistency
                (Stick.constructor 100 (set_gripRatio defaultProps (Some (1 / 4)))))
      as (_ & _ & H & _).
    apply (H (1 / 4)); [reflexivity | lra].
  - destruct (query_boundary_consistency (Stick.constructor 100 defaultProps))
      as (_ & _ & _ & H).
    apply H. reflexivity.
Defined.

(** ** Sub-steps of duration zero *)

Section ZeroDt.

Import Stick.

Lemma verletPos_zero_dt s a :
  verletPos s a 0 = Vec3.add (tipPos s) (Vec3.sub (tipPos s) (oldTipPos s)).
Proof.
  unfold verletPos.
  replace (1 - damping (props s) * 0) with 1 by ring.
  rewrite Rmax_right by lra.
  apply vec_ext; simpl; ring.
Qed.

Lemma softLength_zero_dt s a p : softLength s a 0 p = p.
Proof.
  unfold softLength.
  destruct (Rgt_dec _ _) as [_ | _]; [| reflexivity].
  replace (stretchFactor (props s) * (5 / 100) * 0) with 0 by ring.
  rewrite (Rmax_left 0 0) by lra.
  rewrite Rmin_right by lra.
  match goal with
  | |- context [Vec3.scale _ ?l] =>
      replace l with (Vec3.length (Vec3.sub p (handlePos s))) by ring
  end.
  rewrite normalize_scale_length. apply add_sub_r.
Qed.

Lemma bendClamp_insideCone s p :
  insideCone (props s) (handlePos s) (handleDir s) p -> bendClamp s p = p.
Proof.
  intros Hin. unfold bendClamp.
  destruct (Rgt_dec _ _) as [Hfar | _]; [| reflexivity].
  destruct (Rlt_dec (maxAngleDegOf (props s)) _) as [Hcone | _]; [| reflexivity].
  destruct (Rlt_dec _ _) as [Hout | _]; [| reflexivity].
  exfalso. unfold insideCone, maxAngleRadOf in Hin.
  destruct Hin as [H | [H | H]]; lra.
Qed.

Lemma stretchClamp_within s a p :
  Vec3.length (Vec3.sub p (handlePos s))
  <= a * or_default (maxStretchRatio (props s)) (15 / 10) ->
  stretchClamp s a p = p.
Proof.
  intros H. unfold stretchClamp.
  destruct (Rgt_dec _ _) as [Hgt | _]; [lra | reflexivity].
Qed.

(** A resting tip that satisfies both hard constraints is a fixed point of a
    sub-step of duration zero. *)
Lemma step_zero_dt_rest s a :
  oldTipPos s = tipPos s ->
  insideCone (props s) (handlePos s) (handleDir s) (tipPos s) ->
  Vec3.length (Vec3.sub (tipPos s) (handlePos s))
  <= a * or_default (maxStretchRatio (props s)) (15 / 10) ->
  performPhysicsStep s a 0 = s.
Proof.
  intros Hold Hcone Hcap. unfold performPhysicsStep.
  rewrite verletPos_zero_dt, softLength_zero_dt, Hold, sub_self, add_zero_r.
  rewrite (bendClamp_insideCone _ _ Hcone), (stretchClamp_within _ _ _ Hcap).
  destruct s; simpl in *. rewrite Hold. reflexivity.
Qed.

Lemma loop_fixed n s a dt :
  performPhysicsStep s a dt = s -> subStepLoop n s a dt = s.
Proof.
  intros Hfix. induction n as [| n IH]; simpl.
  - reflexivity.
  - rewrite Hfix. exact IH.
Qed.

Lemma zero_subDt : 0 / INR subSteps = 0.
Proof. unfold Rdiv. apply Rmult_0_l. Qed.

Lemma swing_zero_dt_rest s h d :
  1 / 10 <= activeLengthOf s ->
  oldTipPos s = tipPos s ->
  insideCone (props s) h (Vec3.normalize d) (tipPos s) ->
  Vec3.distance (tipPos s) h
  <= activeLengthOf s * or_default (maxStretchRatio (props s)) (15 / 10) ->
  swing s h d 0 = posed s h d /\ beforeLastSubStep s h d 0 = posed s h d.
Proof.
  intros Ha Hold Hcone Hcap.
  assert (performPhysicsStep (posed s h d) (activeLengthOf s) 0 = posed s h d)
    as Hfix by (apply step_zero_dt_rest; assumption).
  split.
  - unfold swing. fold (activeLengthOf s). fold (posed s h d).
    destruct (Rlt_dec _ _) as [Hd | _]; [lra |].
    rewrite zero_subDt. apply loop_fixed, Hfix.
  - unfold beforeLastSubStep. rewrite zero_subDt. apply loop_fixed, Hfix.
Qed.

End ZeroDt.

(** ** The stick of [App.tsx] at rest *)

Lemma default_activeLength (L : R) :
  Stick.activeLengthOf (Stick.constructor L defaultProps) = L.
Proof.
  unfold Stick.activeLengthOf; simpl.
  destruct (Req_dec_T 0 0) as [_ | N]; ring.
Qed.

Lemma default_tipPos (L : R) :
  Stick.tipPos (Stick.constructor L defaultProps) = mkVector3 0 L 0.
Proof.
  apply vec_ext; simpl; destruct (Req_dec_T 0 0) as [_ | N]; ring.
Qed.

Lemma default_maxRatio (L : R) :
  or_default (maxStretchRatio (Stick.props (Stick.constructor L defaultProps)))
             (15 / 10) = 15 / 10.
Proof. simpl. destruct (Req_dec_T (15 / 10) 0); lra. Qed.

Lemma length_along_y (c : R) : Vec3.length (mkVector3 0 c 0) = Rabs c.
Proof.
  apply length_of_sq; [apply Rabs_pos |].
  simpl. unfold Rabs; destruct (Rcase_abs c); ring.
Qed.

(** C3, as stated, fails: on the stick of [App.tsx] right after
    construction, a swing with [dt = 0] towards a handle at [(0,1000,0)]
    moves the tip away from [(0,100,0)]; the hard stretch clamp pulls it to
    within [150] of the new handle position. *)
Lemma zero_dt_noop_counterexample :
  Stick.tipPos
    (Stick.swing (Stick.constructor 100 defaultProps)
                 (mkVector3 0 1000 0) (mkVector3 0 1 0) 0)
  <> Stick.tipPos (Stick.constructor 100 defaultProps).
Proof.
  intros E.
  pose proof (swing_tip_bound (Stick.constructor 100 defaultProps)
                (mkVector3 0 1000 0) (mkVector3 0 1 0) 0) as B.
  destruct (swing_frame (Stick.constructor 100 defaultProps)
              (mkVector3 0 1000 0) (mkVector3 0 1 0) 0) as (_ & _ & Hh & _).
  rewrite E, Hh, default_activeLength, default_maxRatio, default_tipPos in B.
  rewrite distance_as_length in B.
  replace (Vec3.sub (mkVector3 0 100 0) (mkVector3 0 1000 0))
    with (mkVector3 0 (-900) 0) in B by (apply vec_ext; simpl; ring).
  rewrite length_along_y, Rabs_left in B by lra.
  lra.
Qed.

(** C3, amended. A sub-step of duration zero predicts
    [tipPos + (tipPos - oldTipPos)]: the implicit velocity is kept, undamped,
    and there is no spring term; its soft length correction changes nothing.
    So a swing with [dt = 0] leaves the tip where it is when the rod is not
    degenerate, the implicit velocity is zero, and, for the handle pose
    supplied, the tip already satisfies both hard constraints (it is let
    through by the cone constraint and lies within the stretch cap). *)
Theorem zero_dt_swing :
  (forall s a,
     Stick.verletPos s a 0 =
     Vec3.add (Stick.tipPos s) (Vec3.sub (Stick.tipPos s) (Stick.oldTipPos s))) /\
  (forall s a p, Stick.softLength s a 0 p = p) /\
  (forall s h d,
     1 / 10 <= Stick.activeLengthOf s ->
     Stick.oldTipPos s = Stick.tipPos s ->
     insideCone (Stick.props s) h (Vec3.normalize d) (Stick.tipPos s) ->
     Vec3.distance (Stick.tipPos s) h
     <= Stick.activeLengthOf s
        * or_default (maxStretchRatio (Stick.props s)) (15 / 10) ->
     Stick.tipPos (Stick.swing s h d 0) = Stick.tipPos s /\
     Stick.oldTipPos (Stick.swing s h d 0) = Stick.oldTipPos s).
Proof.
  split; [apply verletPos_zero_dt |].
  split; [apply softLength_zero_dt |].
  intros s h d Ha Hold Hcone Hcap.
  destruct (swing_zero_dt_rest s h d Ha Hold Hcone Hcap) as (-> & _).
  split; reflexivity.
Qed.

Lemma zero_dt_swing_witness :
  Stick.tipPos
    (Stick.swing (Stick.constructor 100 defaultProps)
                 (mkVector3 0 0 0) (mkVector3 0 2 0) 0)
  = Stick.tipPos (Stick.constructor 100 defaultProps).
Proof.
  destruct zero_dt_swing as (_ & _ & H).
  apply H.
  - rewrite default_activeLength. lra.
  - reflexivity.
  - right; left. unfold Stick.maxAngleDegOf; simpl. lra.
  - rewrite default_activeLength, default_maxRatio, default_tipPos.
    rewrite distance_as_length.
    replace (Vec3.sub (mkVector3 0 100 0) (mkVector3 0 0 0))
      with (mkVector3 0 100 0) by (apply vec_ext; simpl; ring).
    rewrite length_along_y, Rabs_right by lra. lra.
Defined.

(** ** Unit vectors, their angles, and the slerp of step 4 *)

Section UnitVectors.

Implicit Types a b e hd v : Vector3.

Lemma unit_sumsq v : Vec3.length v = 1 -> x v * x v + y v * y v + z v * z v = 1.
Proof. intros H. rewrite <- length_sqr, H. ring. Qed.

Lemma unit_dot_bounds a b :
  Vec3.length a = 1 -> Vec3.length b = 1 -> -1 <= Vec3.dot a b <= 1.
Proof.
  intros Ha Hb. apply unit_sumsq in Ha. apply unit_sumsq in Hb.
  pose proof (sumsq_nonneg (x a - x b) (y a - y b) (z a - z b)) as Hm.
  pose proof (sumsq_nonneg (x a + x b) (y a + y b) (z a + z b)) as Hp.
  unfold Vec3.dot. split; nra.
Qed.

Lemma scale_to_unit v :
  0 < Vec3.length v -> Vec3.length (Vec3.scale v (1 / Vec3.length v)) = 1.
Proof.
  intros H. rewrite length_scale, Rabs_right.
  - field. lra.
  - apply Rle_ge. unfold Rdiv. rewrite Rmult_1_l.
    left. apply Rinv_0_lt_compat, H.
Qed.

Lemma normalize_unit_id v : Vec3.length v = 1 -> Vec3.normalize v = v.
Proof.
  intros H. rewrite normalize_nonzero by lra. rewrite H.
  apply vec_ext; simpl; field.
Qed.

Lemma normalize_scale_unit e (k : R) :
  Vec3.length e = 1 -> 0 < k -> Vec3.normalize (Vec3.scale e k) = e.
Proof.
  intros He Hk.
  assert (Vec3.length (Vec3.scale e k) = k) as Hl.
  { rewrite length_scale, He, Rabs_right; lra. }
  rewrite normalize_nonzero by lra. rewrite Hl.
  apply vec_ext; simpl; field; lra.
Qed.

Lemma normalize_idem v : Vec3.normalize (Vec3.normalize v) = Vec3.normalize v.
Proof.
  destruct (Req_dec_T (Vec3.length v) 0) as [E | N].
  - rewrite (length_eq_0 _ E), !normalize_zero_vec. reflexivity.
  - apply normalize_unit_id, normalize_length, N.
Qed.

(** Rescaling the unit vector of [v] to a positive length keeps the
    direction of [v]. *)
Lemma normalize_rescaled v (k : R) :
  0 < k -> Vec3.normalize (Vec3.scale (Vec3.normalize v) k) = Vec3.normalize v.
Proof.
  intros Hk.
  destruct (Req_dec_T (Vec3.length v) 0) as [E | N].
  - rewrite (length_eq_0 _ E), normalize_zero_vec.
    replace (Vec3.scale (mkVector3 0 0 0) k) with (mkVector3 0 0 0)
      by (apply vec_ext; simpl; ring).
    apply normalize_zero_vec.
  - apply normalize_scale_unit; [apply normalize_length, N | exact Hk].
Qed.

(** [acos] reverses the order, on cosines and on angles of [[0, PI]]. *)
Lemma acos_le_of_cos_le (c phi : R) :
  -1 <= c <= 1 -> 0 <= phi <= PI -> cos phi <= c -> acos c <= phi.
Proof.
  intros Hc Hphi Hle.
  destruct (Rle_dec (acos c) phi) as [H | H]; [exact H | exfalso].
  pose proof (acos_bound c) as Hb.
  assert (cos (acos c) < cos phi) as Hlt by (apply cos_decreasing_1; lra).
  rewrite cos_acos in Hlt; lra.
Qed.

Lemma acos_gt_of_cos_lt (c phi : R) :
  -1 <= c <= 1 -> 0 <= phi <= PI -> c < cos phi -> phi < acos c.
Proof.
  intros Hc Hphi Hlt.
  destruct (Rlt_dec phi (acos c)) as [H | H]; [exact H | exfalso].
  pose proof (acos_bound c) as Hb.
  assert (cos phi <= cos (acos c)) as Hle by (apply cos_decr_1; lra).
  rewrite cos_acos in Hle; lra.
Qed.

Lemma clamp_id (c : R) : -1 <= c <= 1 -> Rmax (-1) (Rmin 1 c) = c.
Proof. intros Hc. rewrite Rmin_right by lra. apply Rmax_right; lra. Qed.

(** The two-weight slerp: from unit vectors [hd] and [e] at angle [theta],
    the combination with weights [sin (theta - phi) / sin theta] and
    [sin phi / sin theta] is a unit vector at angle [phi] from [hd]. *)
Lemma slerp_on_cone hd e (theta phi : R) :
  Vec3.length hd = 1 -> Vec3.length e = 1 ->
  Vec3.dot e hd = cos theta -> sin theta <> 0 ->
  let n := Vec3.add (Vec3.scale hd (sin (theta - phi) / sin theta))
                    (Vec3.scale e (sin phi / sin theta)) in
  Vec3.dot n hd = cos phi /\ Vec3.length n = 1.
Proof.
  intros Hhd He Hdot Hsin n.
  apply unit_sumsq in Hhd. apply unit_sumsq in He.
  unfold Vec3.dot in Hdot.
  pose proof (sin2_cos2 theta) as Ht. pose proof (sin2_cos2 phi) as Hp.
  unfold Rsqr in Ht, Hp.
  set (w1 := sin (theta - phi) / sin theta) in *.
  set (w2 := sin phi / sin theta) in *.
  assert (w1 + w2 * cos theta = cos phi) as Hw.
  { unfold w1, w2. rewrite sin_minus. field. exact Hsin. }
  assert (w1 * w1 + 2 * (w1 * w2) * cos theta + w2 * w2 = 1) as Hn.
  { unfold w1, w2. rewrite sin_minus.
    set (S := sin theta) in *. set (C := cos theta) in *.
    set (Sp := sin phi) in *. set (Cp := cos phi) in *.
    assert ((S * Cp - C * Sp) * (S * Cp - C * Sp)
            + 2 * ((S * Cp - C * Sp) * Sp) * C + Sp * Sp = S * S) as Hnum.
    { replace ((S * Cp - C * Sp) * (S * Cp - C * Sp)
               + 2 * ((S * Cp - C * Sp) * Sp) * C + Sp * Sp)
        with (S * S * (Sp * Sp + Cp * Cp) + Sp * Sp * (1 - (S * S + C * C)))
        by ring.
      rewrite Ht, Hp. ring. }
    replace ((S * Cp - C * Sp) / S * ((S * Cp - C * Sp) / S)
             + 2 * ((S * Cp - C * Sp) / S * (Sp / S)) * C + Sp / S * (Sp / S))
      with (((S * Cp - C * Sp) * (S * Cp - C * Sp)
             + 2 * ((S * Cp - C * Sp) * Sp) * C + Sp * Sp) / (S * S))
      by (field; exact Hsin).
    rewrite Hnum. field. exact Hsin. }
  split.
  - unfold Vec3.dot, n; simpl.
    replace ((x hd * w1 + x e * w2) * x hd + (y hd * w1 + y e * w2) * y hd
             + (z hd * w1 + z e * w2) * z hd)
      with (w1 * (x hd * x hd + y hd * y hd + z hd * z hd)
            + w2 * (x e * x hd + y e * y hd + z e * z hd)) by ring.
    rewrite Hhd, Hdot. lra.
  - apply length_of_sq; [lra |]. unfold n; simpl.
    replace ((x hd * w1 + x e * w2) * (x hd * w1 + x e * w2)
             + (y hd * w1 + y e * w2) * (y hd * w1 + y e * w2)
             + (z hd * w1 + z e * w2) * (z hd * w1 + z e * w2))
      with (w1 * w1 * (x hd * x hd + y hd * y hd + z hd * z hd)
            + 2 * (w1 * w2) * (x e * x hd + y e * y hd + z e * z hd)
            + w2 * w2 * (x e * x e + y e * y e + z e * z e)) by ring.
    rewrite Hhd, He, Hdot. lra.
Qed.

End UnitVectors.

(** ** The bend cone *)

Section BendCone.

Import Stick.

Lemma maxAngleRad_range (p : ElasticProperties) :
  maxAngleDegOf p < 1799 / 10 -> 1 / 1000 <= maxAngleRadOf p ->
  0 <= maxAngleRadOf p <= PI.
Proof.
  unfold maxAngleRadOf. intros Hlt Hge.
  pose proof PI_RGT_0 as Hpi. split; [lra |]. nra.
Qed.

(** Past the dead zone, and unless the point lies exactly opposite the handle
    direction, step 4 returns a point at the same distance from the handle
    whose direction is inside the cone. *)
Lemma bendClamp_direction s q :
  Vec3.length (handleDir s) = 1 ->
  maxAngleDegOf (props s) < 1799 / 10 ->
  1 / 1000 <= maxAngleRadOf (props s) ->
  1 / 10000 < Vec3.length (Vec3.sub q (handlePos s)) ->
  Vec3.dot (Vec3.normalize (Vec3.sub q (handlePos s))) (handleDir s) <> -1 ->
  exists e,
    Vec3.length e = 1 /\
    cos (maxAngleRadOf (props s)) <= Vec3.dot e (handleDir s) /\
    Vec3.sub (bendClamp s q) (handlePos s)
    = Vec3.scale e (Vec3.length (Vec3.sub q (handlePos s))).
Proof.
  intros Hhd Hdeg Hrad Hfar Hopp.
  pose proof (maxAngleRad_range _ Hdeg Hrad) as Hphi.
  unfold bendClamp.
  set (v := Vec3.sub q (handlePos s)) in *.
  set (dist := Vec3.length v) in *.
  assert (0 < dist) as Hdist by lra.
  rewrite (normalize_as_scale v) in Hopp by (fold dist; lra). fold dist in Hopp.
  set (tipDir := Vec3.scale v (1 / dist)) in *.
  assert (Vec3.length tipDir = 1) as Htip by (apply scale_to_unit; exact Hdist).
  assert (Vec3.scale tipDir dist = v) as Hback.
  { unfold tipDir. apply vec_ext; simpl; field; lra. }
  pose proof (unit_dot_bounds tipDir (handleDir s) Htip Hhd) as Hc.
  destruct (Rgt_dec dist (1 / 10000)) as [_ | N]; [| lra].
  destruct (Rlt_dec (maxAngleDegOf (props s)) (1799 / 10)) as [_ | N]; [| lra].
  fold (maxAngleRadOf (props s)).
  set (phi := maxAngleRadOf (props s)) in *.
  set (c := Vec3.dot tipDir (handleDir s)) in *.
  destruct (Rlt_dec c (cos phi)) as [Hout | Hin].
  - rewrite (clamp_id c Hc).
    pose proof (acos_gt_of_cos_lt c phi Hc Hphi Hout) as Hgt.
    set (theta := acos c) in *.
    destruct (Rgt_dec theta (1 / 1000)) as [_ | N]; [| lra].
    assert (-1 < c < 1) as Hc' by (pose proof (COS_bound phi); lra).
    pose proof (acos_bound_lt c Hc') as Hth. fold theta in Hth.
    assert (0 < sin theta) as Hsin by (apply sin_gt_0; lra).
    replace ((1 - phi / theta) * theta) with (theta - phi) by (field; lra).
    replace (phi / theta * theta) with phi by (field; lra).
    assert (Vec3.dot tipDir (handleDir s) = cos theta) as Hcos.
    { unfold theta. rewrite cos_acos by lra. reflexivity. }
    destruct (slerp_on_cone (handleDir s) tipDir theta phi Hhd Htip Hcos)
      as (Hd & Hn); [lra |].
    rewrite (normalize_unit_id _ Hn).
    eexists. split; [exact Hn |]. split; [rewrite Hd; lra |].
    apply sub_add_l.
  - exists tipDir. split; [exact Htip |]. split; [fold c; lra |].
    symmetry. exact Hback.
Qed.

(** With a positive cap, step 5 keeps the direction from the handle. *)
Lemma stretchClamp_direction s a p :
  0 < a * or_default (maxStretchRatio (props s)) (15 / 10) ->
  Vec3.normalize (Vec3.sub (stretchClamp s a p) (handlePos s))
  = Vec3.normalize (Vec3.sub p (handlePos s)).
Proof.
  intros Hcap. unfold stretchClamp.
  destruct (Rgt_dec _ _) as [_ | _]; [| reflexivity].
  rewrite sub_add_l. apply normalize_rescaled, Hcap.
Qed.

Lemma step_bend_bound s a dt :
  Vec3.length (handleDir s) = 1 ->
  maxAngleDegOf (props s) < 1799 / 10 ->
  1 / 1000 <= maxAngleRadOf (props s) ->
  0 < a * or_default (maxStretchRatio (props s)) (15 / 10) ->
  1 / 10000 < Vec3.length (Vec3.sub (bendEntry s a dt) (handlePos s)) ->
  Vec3.dot (Vec3.normalize (Vec3.sub (bendEntry s a dt) (handlePos s)))
           (handleDir s) <> -1 ->
  cos (maxAngleRadOf (props s)) <= bendCos (performPhysicsStep s a dt) /\
  bendAngle (performPhysicsStep s a dt) <= maxAngleRadOf (props s).
Proof.
  intros Hhd Hdeg Hrad Hcap Hfar Hopp.
  destruct (bendClamp_direction s (bendEntry s a dt) Hhd Hdeg Hrad Hfar Hopp)
    as (e & He & Hcone & Hoff).
  assert (bendCos (performPhysicsStep s a dt) = Vec3.dot e (handleDir s)) as Hb.
  { unfold bendCos, performPhysicsStep; simpl.
    rewrite (stretchClamp_direction s a _ Hcap).
    fold (bendEntry s a dt). rewrite Hoff.
    rewrite normalize_scale_unit by (assumption || lra). reflexivity. }
  split; [rewrite Hb; exact Hcone |].
  unfold bendAngle. rewrite Hb.
  pose proof (unit_dot_bounds e (handleDir s) He Hhd) as Hc.
  rewrite (clamp_id _ Hc).
  apply acos_le_of_cos_le;
    [exact Hc | apply maxAngleRad_range; assumption | exact Hcone].
Qed.

Lemma swing_as_last_step s h d dt :
  1 / 10 <= activeLengthOf s ->
  swing s h d dt =
  performPhysicsStep (beforeLastSubStep s h d dt) (activeLengthOf s)
                     (dt / INR subSteps).
Proof.
  intros Ha. unfold swing. fold (activeLengthOf s). fold (posed s h d).
  destruct (Rlt_dec _ _) as [Hd | _]; [lra |].
  unfold beforeLastSubStep, subSteps. simpl pred.
  apply (loop_last 7).
Qed.

Lemma beforeLast_frame s h d dt :
  props (beforeLastSubStep s h d dt) = props s /\
  handlePos (beforeLastSubStep s h d dt) = h /\
  handleDir (beforeLastSubStep s h d dt) = Vec3.normalize d.
Proof.
  unfold beforeLastSubStep.
  match goal with
  | |- context [subStepLoop ?n ?s0 ?a ?e] =>
      destruct (loop_frame n s0 a e) as (_ & H2 & H3 & H4)
  end.
  rewrite H2, H3, H4. repeat split.
Qed.

End BendCone.

(** ** A stick with a 45 degree cone, at rest *)

Section ConeAtRest.

Import Stick.

Lemma cone_activeLength (L : R) : activeLengthOf (constructor L coneProps) = L.
Proof.
  unfold activeLengthOf; simpl.
  destruct (Req_dec_T 0 0) as [_ | N]; ring.
Qed.

Lemma cone_tipPos (L : R) : tipPos (constructor L coneProps) = mkVector3 0 L 0.
Proof.
  apply vec_ext; simpl; destruct (Req_dec_T 0 0) as [_ | N]; ring.
Qed.

Lemma cone_oldTipPos (L : R) :
  oldTipPos (constructor L coneProps) = tipPos (constructor L coneProps).
Proof. reflexivity. Qed.

Lemma cone_maxRatio (L : R) :
  or_default (maxStretchRatio (props (constructor L coneProps))) (15 / 10) = 15 / 10.
Proof. simpl. destruct (Req_dec_T (15 / 10) 0); lra. Qed.

Lemma cone_maxAngleRad (L : R) :
  maxAngleRadOf (props (constructor L coneProps)) = PI / 4.
Proof. unfold maxAngleRadOf, maxAngleDegOf; simpl. field. Qed.

Lemma PI_gt_3 : 3 < PI.
Proof. pose proof PI2_3_2. lra. Qed.

Lemma normalize_along_y (c : R) :
  c <> 0 -> Vec3.normalize (mkVector3 0 c 0) = mkVector3 0 (c / Rabs c) 0.
Proof.
  intros Hc.
  assert (Rabs c <> 0) as Ha by (apply Rabs_no_R0, Hc).
  rewrite normalize_nonzero; rewrite length_along_y; [| exact Ha].
  apply vec_ext; simpl; field; exact Ha.
Qed.

Lemma normalize_up (c : R) :
  0 < c -> Vec3.normalize (mkVector3 0 c 0) = mkVector3 0 1 0.
Proof.
  intros Hc. rewrite normalize_along_y by lra.
  rewrite Rabs_right by lra. apply vec_ext; simpl; field; lra.
Qed.

Lemma normalize_down (c : R) :
  c < 0 -> Vec3.normalize (mkVector3 0 c 0) = mkVector3 0 (-1) 0.
Proof.
  intros Hc. rewrite normalize_along_y by lra.
  rewrite Rabs_left by lra. apply vec_ext; simpl; field; lra.
Qed.

(** The handle is moved to just above the resting tip of the unit stick:
    the tip is in the dead zone, below the handle. *)
Lemma above_tip_offset :
  Vec3.sub (tipPos (constructor 1 coneProps)) (mkVector3 0 (100005 / 100000) 0)
  = mkVector3 0 (- (5 / 100000)) 0.
Proof. rewrite cone_tipPos. apply vec_ext; simpl; field. Qed.

Lemma above_tip_swing :
  swing (constructor 1 coneProps) (mkVector3 0 (100005 / 100000) 0)
        (mkVector3 0 1 0) 0
  = posed (constructor 1 coneProps) (mkVector3 0 (100005 / 100000) 0)
          (mkVector3 0 1 0).
Proof.
  apply swing_zero_dt_rest.
  - rewrite cone_activeLength. lra.
  - reflexivity.
  - left. rewrite above_tip_offset, length_along_y, Rabs_left; lra.
  - rewrite distance_as_length, above_tip_offset, length_along_y, Rabs_left by lra.
    rewrite cone_activeLength, cone_maxRatio. lra.
Qed.

Lemma above_tip_bendCos :
  bendCos (posed (constructor 1 coneProps) (mkVector3 0 (100005 / 100000) 0)
                 (mkVector3 0 1 0)) = -1.
Proof.
  unfold bendCos, posed.
  cbn [tipPos handlePos handleDir].
  rewrite above_tip_offset, normalize_down, normalize_up by lra.
  unfold Vec3.dot; simpl. ring.
Qed.

(** The stick of length [100] held still: every sub-step of a swing with
    [dt = 0] and the pose of construction finds the tip at [(0,100,0)]. *)
Lemma held_still_before_last :
  beforeLastSubStep (constructor 100 coneProps) (mkVector3 0 0 0) (mkVector3 0 2 0) 0
  = posed (constructor 100 coneProps) (mkVector3 0 0 0) (mkVector3 0 2 0).
Proof.
  apply swing_zero_dt_rest.
  - rewrite cone_activeLength. lra.
  - reflexivity.
  - right; right. rewrite cone_tipPos.
    replace (Vec3.sub (mkVector3 0 100 0) (mkVector3 0 0 0))
      with (mkVector3 0 100 0) by (apply vec_ext; simpl; ring).
    rewrite length_along_y, Rabs_right, normalize_up by lra.
    pose proof (COS_bound (maxAngleRadOf (props (constructor 100 coneProps))))
      as Hcos.
    set (k := cos (maxAngleRadOf (props (constructor 100 coneProps)))) in *.
    unfold Vec3.dot; simpl. lra.
  - rewrite distance_as_length, cone_tipPos.
    replace (Vec3.sub (mkVector3 0 100 0) (mkVector3 0 0 0))
      with (mkVector3 0 100 0) by (apply vec_ext; simpl; ring).
    rewrite length_along_y, Rabs_right by lra.
    rewrite cone_activeLength, cone_maxRatio. lra.
Qed.

Lemma held_still_bendEntry :
  Vec3.sub
    (bendEntry
       (beforeLastSubStep (constructor 100 coneProps)
                          (mkVector3 0 0 0) (mkVector3 0 2 0) 0)
       (activeLengthOf (constructor 100 coneProps)) (0 / INR subSteps))
    (mkVector3 0 0 0)
  = mkVector3 0 100 0.
Proof.
  rewrite held_still_before_last, zero_subDt.
  unfold bendEntry. rewrite verletPos_zero_dt, softLength_zero_dt.
  unfold posed. cbn [tipPos oldTipPos].
  rewrite cone_oldTipPos, cone_tipPos.
  apply vec_ext; simpl; ring.
Qed.

End ConeAtRest.

(** C2, as stated, fails: the stick of length [1] with a 45 degree cone,
    right after construction, is swung with [dt = 0] to a handle [0.00005]
    above its tip, pointing up.  The tip then lies within [0.0001] of the
    handle, where step 4 does nothing; it stays straight below the handle,
    at 180 degrees from the handle direction. *)
Lemma max_bend_counterexample :
  Stick.maxAngleDegOf
    (Stick.props
       (Stick.swing (Stick.constructor 1 coneProps)
                    (mkVector3 0 (100005 / 100000) 0) (mkVector3 0 1 0) 0))
  < 1799 / 10 /\
  bendAngle (Stick.swing (Stick.constructor 1 coneProps)
                         (mkVector3 0 (100005 / 100000) 0) (mkVector3 0 1 0) 0)
  = PI /\
  ~ bendAngle (Stick.swing (Stick.constructor 1 coneProps)
                           (mkVector3 0 (100005 / 100000) 0) (mkVector3 0 1 0) 0)
    <= maxAngleRadOf
         (Stick.props
            (Stick.swing (Stick.constructor 1 coneProps)
                         (mkVector3 0 (100005 / 100000) 0) (mkVector3 0 1 0) 0))
       + 1.
Proof.
  rewrite above_tip_swing.
  assert (bendAngle (posed (Stick.constructor 1 coneProps)
                           (mkVector3 0 (100005 / 100000) 0) (mkVector3 0 1 0))
          = PI) as Hangle.
  { unfold bendAngle. rewrite above_tip_bendCos.
    rewrite clamp_id by lra.
    replace (-1) with (- (1)) by ring.
    rewrite acos_opp, acos_1. ring. }
  split; [| split].
  - unfold Stick.maxAngleDegOf; simpl. lra.
  - exact Hangle.
  - rewrite Hangle.
    change (Stick.props (posed (Stick.constructor 1 coneProps)
                               (mkVector3 0 (100005 / 100000) 0) (mkVector3 0 1 0)))
      with (Stick.props (Stick.constructor 1 coneProps)).
    rewrite cone_maxAngleRad. pose proof PI_gt_3. lra.
Qed.

(** C2, amended. Take a configuration whose [maxBendAngle] is below 179.9
    degrees and at least 0.001 radians, whose [maxStretchRatio || 1.5] is
    positive, and a rod that is not degenerate; swing it with a direction
    that is not the zero vector.  If, in the last sub-step, the position
    entering the bend clamp is farther than [0.0001] from the handle and not
    exactly opposite the handle direction, then after the swing the angle
    between [normalize (tipPos - handlePos)] and [handleDir] is at most
    [maxBendAngle].  The hard stretch clamp that follows the bend clamp
    keeps the direction from the handle. *)
Theorem max_bend_invariant (s : Stick.t) (h d : Vector3) (dt : R) :
  Stick.maxAngleDegOf (Stick.props s) < 1799 / 10 ->
  1 / 1000 <= maxAngleRadOf (Stick.props s) ->
  0 < or_default (maxStretchRatio (Stick.props s)) (15 / 10) ->
  1 / 10 <= Stick.activeLengthOf s ->
  d <> mkVector3 0 0 0 ->
  1 / 10000 <
    Vec3.length
      (Vec3.sub (bendEntry (beforeLastSubStep s h d dt) (Stick.activeLengthOf s)
                           (dt / INR Stick.subSteps)) h) ->
  Vec3.dot
    (Vec3.normalize
       (Vec3.sub (bendEntry (beforeLastSubStep s h d dt) (Stick.activeLengthOf s)
                            (dt / INR Stick.subSteps)) h))
    (Vec3.normalize d) <> -1 ->
  bendAngle (Stick.swing s h d dt) <= maxAngleRadOf (Stick.props s) /\
  cos (maxAngleRadOf (Stick.props s)) <= bendCos (Stick.swing s h d dt) /\
  (forall p,
     Vec3.normalize
       (Vec3.sub (Stick.stretchClamp (beforeLastSubStep s h d dt)
                                     (Stick.activeLengthOf s) p) h)
     = Vec3.normalize (Vec3.sub p h)).
Proof.
  intros Hdeg Hrad Hratio Ha Hd Hfar Hopp.
  destruct (beforeLast_frame s h d dt) as (Hp & Hh & Hdir).
  assert (0 < Stick.activeLengthOf s
              * or_default
                  (maxStretchRatio (Stick.props (beforeLastSubStep s h d dt)))
                  (15 / 10)) as Hcap.
  { rewrite Hp. apply Rmult_lt_0_compat; lra. }
  rewrite (swing_as_last_step s h d dt Ha).
  rewrite <- Hp in Hdeg, Hrad |- *.
  rewrite <- Hh in Hfar, Hopp. rewrite <- Hdir in Hopp.
  destruct (step_bend_bound (beforeLastSubStep s h d dt) (Stick.activeLengthOf s)
              (dt / INR Stick.subSteps)) as (Hc & Hang); try assumption.
  - rewrite Hdir. apply normalize_length, nonzero_length, Hd.
  - split; [exact Hang |]. split; [exact Hc |].
    intros p. rewrite <- Hh at 2 3.
    apply stretchClamp_direction, Hcap.
Qed.

Lemma max_bend_invariant_witness :
  bendAngle (Stick.swing (Stick.constructor 100 coneProps)
                         (mkVector3 0 0 0) (mkVector3 0 2 0) 0)
  <= maxAngleRadOf (Stick.props (Stick.constructor 100 coneProps)).
Proof.
  apply (max_bend_invariant (Stick.constructor 100 coneProps)
           (mkVector3 0 0 0) (mkVector3 0 2 0) 0).
  - unfold Stick.maxAngleDegOf; simpl. lra.
  - rewrite cone_maxAngleRad. pose proof PI_gt_3. lra.
  - rewrite cone_maxRatio. lra.
  - rewrite cone_activeLength. lra.
  - intros E. apply (f_equal y) in E. simpl in E. lra.
  - rewrite held_still_bendEntry, length_along_y, Rabs_right; lra.
  - rewrite held_still_bendEntry, !normalize_up by lra.
    unfold Vec3.dot; simpl. lra.
Defined.

(** ** More vector algebra: products, norms and distances *)

Section NormFacts.

Implicit Types a b c v : Vector3.

Lemma dot_sq_le a b :
  Vec3.dot a b * Vec3.dot a b
  <= (Vec3.length a * Vec3.length a) * (Vec3.length b * Vec3.length b).
Proof.
  rewrite !length_sqr. unfold Vec3.dot.
  pose proof (sumsq_nonneg (x a * y b - y a * x b) (x a * z b - z a * x b)
                           (y a * z b - z a * y b)) as Hcross.
  nra.
Qed.

Lemma sq_le_le (p q : R) : 0 <= q -> p * p <= q * q -> p <= q.
Proof. intros Hq H. nra. Qed.

Lemma dot_le_lengths a b : Vec3.dot a b <= Vec3.length a * Vec3.length b.
Proof.
  apply sq_le_le.
  - apply Rmult_le_pos; apply length_nonneg.
  - pose proof (dot_sq_le a b). nra.
Qed.

Lemma length_add_le a b :
  Vec3.length (Vec3.add a b) <= Vec3.length a + Vec3.length b.
Proof.
  pose proof (length_nonneg a) as Ha. pose proof (length_nonneg b) as Hb.
  apply sq_le_le; [lra |].
  rewrite length_sqr. simpl.
  pose proof (dot_le_lengths a b) as Hd. unfold Vec3.dot in Hd.
  pose proof (length_sqr a) as Sa. pose proof (length_sqr b) as Sb.
  nra.
Qed.

Lemma length_neg v : Vec3.length (Vec3.scale v (-1)) = Vec3.length v.
Proof.
  rewrite length_scale, Rabs_left by lra. ring.
Qed.

Lemma length_sub_swap a b : Vec3.length (Vec3.sub a b) = Vec3.length (Vec3.sub b a).
Proof.
  rewrite <- (length_neg (Vec3.sub b a)). f_equal.
  apply vec_ext; simpl; ring.
Qed.

Lemma length_sub_triangle a b c :
  Vec3.length (Vec3.sub a c)
  <= Vec3.length (Vec3.sub a b) + Vec3.length (Vec3.sub b c).
Proof.
  replace (Vec3.sub a c) with (Vec3.add (Vec3.sub a b) (Vec3.sub b c))
    by (apply vec_ext; simpl; ring).
  apply length_add_le.
Qed.

Lemma sub_eq_zero a b : Vec3.sub a b = mkVector3 0 0 0 -> a = b.
Proof.
  intros H.
  pose proof (f_equal x H) as Hx. pose proof (f_equal y H) as Hy.
  pose proof (f_equal z H) as Hz. simpl in Hx, Hy, Hz.
  apply vec_ext; lra.
Qed.

Lemma scale_zero_l (k : R) : Vec3.scale (mkVector3 0 0 0) k = mkVector3 0 0 0.
Proof. apply vec_ext; simpl; ring. Qed.

Lemma normalize_scale_neg v (k : R) :
  k < 0 -> Vec3.normalize (Vec3.scale v k) = Vec3.scale (Vec3.normalize v) (-1).
Proof.
  intros Hk.
  destruct (Req_dec_T (Vec3.length v) 0) as [E | N].
  - rewrite (length_eq_0 _ E), scale_zero_l, normalize_zero_vec, scale_zero_l.
    reflexivity.
  - assert (Vec3.length (Vec3.scale v k) = Vec3.length v * - k) as Hl.
    { rewrite length_scale, Rabs_left by lra. reflexivity. }
    pose proof (length_nonneg v) as Hp.
    assert (Vec3.length v * - k <> 0) as Hne by nra.
    rewrite normalize_nonzero by (rewrite Hl; exact Hne).
    rewrite Hl, (normalize_nonzero _ N).
    apply vec_ext; simpl; field; lra.
Qed.

Lemma normalize_scale_pos v (k : R) :
  0 < k -> Vec3.normalize (Vec3.scale v k) = Vec3.normalize v.
Proof.
  intros Hk.
  destruct (Req_dec_T (Vec3.length v) 0) as [E | N].
  - rewrite (length_eq_0 _ E), scale_zero_l. reflexivity.
  - assert (Vec3.length (Vec3.scale v k) = Vec3.length v * k) as Hl.
    { rewrite length_scale, Rabs_right by lra. reflexivity. }
    pose proof (length_nonneg v) as Hp.
    assert (Vec3.length v * k <> 0) as Hne by nra.
    rewrite normalize_nonzero by (rewrite Hl; exact Hne).
    rewrite Hl, (normalize_nonzero _ N).
    apply vec_ext; simpl; field; lra.
Qed.

End NormFacts.

(** X1. Cauchy-Schwarz for [Vec3.dot] and [Vec3.length], and the triangle
    inequality of [Vec3.length] over [Vec3.add]. *)
Theorem dot_length_inequalities (a b : Vector3) :
  Rabs (Vec3.dot a b) <= Vec3.length a * Vec3.length b /\
  Vec3.length (Vec3.add a b) <= Vec3.length a + Vec3.length b.
Proof.
  split; [| apply length_add_le].
  apply Rabs_le. split.
  - pose proof (dot_le_lengths (Vec3.scale a (-1)) b) as H.
    rewrite length_neg in H. unfold Vec3.dot in *. simpl in H. lra.
  - apply dot_le_lengths.
Qed.

(** X2. [Vec3.distance] is a metric: it is never negative, it is zero
    exactly between equal points, it is symmetric, and it satisfies the
    triangle inequality. *)
Theorem distance_metric (a b c : Vector3) :
  0 <= Vec3.distance a b /\
  (Vec3.distance a b = 0 <-> a = b) /\
  Vec3.distance a b = Vec3.distance b a /\
  Vec3.distance a c <= Vec3.distance a b + Vec3.distance b c.
Proof.
  rewrite !distance_as_length.
  split; [apply length_nonneg |].
  split; [| split].
  - split.
    + intros H. apply sub_eq_zero, length_eq_0, H.
    + intros ->. rewrite sub_self. apply length_zero_vec.
  - apply length_sub_swap.
  - apply length_sub_triangle.
Qed.

(** X3. [Vec3.normalize] is idempotent, returns a vector of length [1] or
    the zero vector, ignores a positive rescaling of its argument and flips
    under a negative one; multiplied by the length of the argument, the
    result gives the argument back. *)
Theorem normalize_direction (v : Vector3) (k : R) :
  Vec3.normalize (Vec3.normalize v) = Vec3.normalize v /\
  (Vec3.length (Vec3.normalize v) = 1 \/ Vec3.normalize v = mkVector3 0 0 0) /\
  (0 < k -> Vec3.normalize (Vec3.scale v k) = Vec3.normalize v) /\
  (k < 0 -> Vec3.normalize (Vec3.scale v k) = Vec3.scale (Vec3.normalize v) (-1)) /\
  Vec3.scale (Vec3.normalize v) (Vec3.length v) = v.
Proof.
  split; [apply normalize_idem |].
  split; [apply normalize_unit_or_zero |].
  split; [apply normalize_scale_pos |].
  split; [apply normalize_scale_neg | apply normalize_scale_length].
Qed.

Lemma normalize_direction_witness :
  Vec3.normalize (Vec3.scale (mkVector3 3 0 4) 2) = Vec3.normalize (mkVector3 3 0 4) /\
  Vec3.normalize (Vec3.scale (mkVector3 3 0 4) (-2))
  = Vec3.scale (Vec3.normalize (mkVector3 3 0 4)) (-1).
Proof.
  split.
  - destruct (normalize_direction (mkVector3 3 0 4) 2) as (_ & _ & H & _).
    apply H. lra.
  - destruct (normalize_direction (mkVector3 3 0 4) (-2)) as (_ & _ & _ & H & _).
    apply H. lra.
Defined.

(** X4. [Vec3.lerp] starts at [a], ends at [b], is [a + (b - a) * t], and
    moves away from [a] by [|t|] times the distance between the end points,
    for every [t], clamped or not. *)
Theorem lerp_segment (a b : Vector3) (t0 : R) :
  Vec3.lerp a b 0 = a /\
  Vec3.lerp a b 1 = b /\
  Vec3.lerp a b t0 = Vec3.add a (Vec3.scale (Vec3.sub b a) t0) /\
  Vec3.distance a (Vec3.lerp a b t0) = Rabs t0 * Vec3.distance a b.
Proof.
  split; [apply vec_ext; simpl; ring |].
  split; [apply vec_ext; simpl; ring |].
  split; [apply vec_ext; simpl; ring |].
  rewrite !distance_as_length.
  replace (Vec3.sub a (Vec3.lerp a b t0)) with (Vec3.scale (Vec3.sub a b) t0)
    by (apply vec_ext; simpl; ring).
  rewrite length_scale. ring.
Qed.

(** ** The stages of a sub-step, one by one *)

Section Stages.

Import Stick.

Lemma softLength_offset s a dt p :
  1 / 10000 < Vec3.length (Vec3.sub p (handlePos s)) ->
  exists alpha, 0 <= alpha <= 1 /\
    Vec3.sub (softLength s a dt p) (handlePos s)
    = Vec3.scale (Vec3.normalize (Vec3.sub p (handlePos s)))
        (Vec3.length (Vec3.sub p (handlePos s))
         + (a - Vec3.length (Vec3.sub p (handlePos s))) * alpha).
Proof.
  intros Hfar. unfold softLength.
  destruct (Rgt_dec _ _) as [_ | N]; [| lra].
  exists (Rmin 1 (Rmax 0 (stretchFactor (props s) * (5 / 100) * dt))).
  split.
  - split.
    + apply Rmin_glb; [lra | apply Rmax_l].
    + apply Rmin_l.
  - apply sub_add_l.
Qed.

Lemma softLength_near s a dt p :
  Vec3.length (Vec3.sub p (handlePos s)) <= 1 / 10000 -> softLength s a dt p = p.
Proof.
  intros Hnear. unfold softLength.
  destruct (Rgt_dec _ _) as [Hgt | _]; [lra | reflexivity].
Qed.

Lemma softLength_full s a dt p :
  1 / 10000 < Vec3.length (Vec3.sub p (handlePos s)) ->
  1 <= stretchFactor (props s) * (5 / 100) * dt ->
  softLength s a dt p
  = Vec3.add (handlePos s)
      (Vec3.scale (Vec3.normalize (Vec3.sub p (handlePos s))) a).
Proof.
  intros Hfar Hfull. unfold softLength.
  destruct (Rgt_dec _ _) as [_ | N]; [| lra].
  rewrite (Rmax_right 0 _) by lra. rewrite Rmin_left by lra.
  f_equal. f_equal. ring.
Qed.

(** What step 4 returns for a unit handle direction, unless the point lies
    exactly opposite it: the point itself, or the point at the same distance
    whose direction is at angle [maxBendAngle] from the handle direction. *)
Lemma bendClamp_cases s q :
  Vec3.length (handleDir s) = 1 ->
  Vec3.dot (Vec3.normalize (Vec3.sub q (handlePos s))) (handleDir s) <> -1 ->
  bendClamp s q = q \/
  exists n,
    Vec3.length n = 1 /\
    Vec3.dot n (handleDir s) = cos (maxAngleRadOf (props s)) /\
    1 / 10000 < Vec3.length (Vec3.sub q (handlePos s)) /\
    maxAngleDegOf (props s) < 1799 / 10 /\
    bendClamp s q
    = Vec3.add (handlePos s)
        (Vec3.scale n (Vec3.length (Vec3.sub q (handlePos s)))).
Proof.
  intros Hhd Hopp. unfold bendClamp.
  set (v := Vec3.sub q (handlePos s)) in *.
  set (dist := Vec3.length v) in *.
  destruct (Rgt_dec dist (1 / 10000)) as [Hfar | _]; [| left; reflexivity].
  assert (0 < dist) as Hdist by lra.
  rewrite (normalize_as_scale v) in Hopp by (fold dist; lra). fold dist in Hopp.
  set (tipDir := Vec3.scale v (1 / dist)) in *.
  assert (Vec3.length tipDir = 1) as Htip by (apply scale_to_unit; exact Hdist).
  pose proof (unit_dot_bounds tipDir (handleDir s) Htip Hhd) as Hc.
  destruct (Rlt_dec (maxAngleDegOf (props s)) (1799 / 10)) as [Hdeg | _];
    [| left; reflexivity].
  fold (maxAngleRadOf (props s)).
  set (phi := maxAngleRadOf (props s)) in *.
  set (c := Vec3.dot tipDir (handleDir s)) in *.
  destruct (Rlt_dec c (cos phi)) as [Hout | _]; [| left; reflexivity].
  rewrite (clamp_id c Hc).
  set (theta := acos c) in *.
  destruct (Rgt_dec theta (1 / 1000)) as [Hbig | _]; [| left; reflexivity].
  assert (-1 < c < 1) as Hc' by (pose proof (COS_bound phi); lra).
  pose proof (acos_bound_lt c Hc') as Hth. fold theta in Hth.
  assert (0 < sin theta) as Hsin by (apply sin_gt_0; lra).
  replace ((1 - phi / theta) * theta) with (theta - phi) by (field; lra).
  replace (phi / theta * theta) with phi by (field; lra).
  assert (Vec3.dot tipDir (handleDir s) = cos theta) as Hcos.
  { unfold theta. rewrite cos_acos by lra. reflexivity. }
  destruct (slerp_on_cone (handleDir s) tipDir theta phi Hhd Htip Hcos)
    as (Hd & Hn); [lra |].
  rewrite (normalize_unit_id _ Hn).
  right. eexists. split; [exact Hn |]. split; [exact Hd |].
  split; [lra |]. split; [exact Hdeg | reflexivity].
Qed.

Lemma bendClamp_distance s q :
  Vec3.length (handleDir s) = 1 ->
  Vec3.dot (Vec3.normalize (Vec3.sub q (handlePos s))) (handleDir s) <> -1 ->
  Vec3.length (Vec3.sub (bendClamp s q) (handlePos s))
  = Vec3.length (Vec3.sub q (handlePos s)).
Proof.
  intros Hhd Hopp.
  destruct (bendClamp_cases s q Hhd Hopp)
    as [-> | (n & Hn & _ & Hfar & _ & ->)]; [reflexivity |].
  rewrite sub_add_l, length_scale, Hn, Rabs_right; lra.
Qed.

Lemma bendClamp_idempotent s q :
  Vec3.length (handleDir s) = 1 ->
  Vec3.dot (Vec3.normalize (Vec3.sub q (handlePos s))) (handleDir s) <> -1 ->
  bendClamp s (bendClamp s q) = bendClamp s q.
Proof.
  intros Hhd Hopp.
  destruct (bendClamp_cases s q Hhd Hopp)
    as [E | (n & Hn & Hdot & Hfar & _ & E)]; rewrite E; [exact E |].
  apply bendClamp_insideCone. right; right.
  rewrite sub_add_l.
  set (dist := Vec3.length (Vec3.sub q (handlePos s))) in *.
  assert (Vec3.length (Vec3.scale n dist) = dist) as Hl.
  { rewrite length_scale, Hn, Rabs_right; lra. }
  rewrite Hl.
  replace (Vec3.scale (Vec3.scale n dist) (1 / dist)) with n
    by (apply vec_ext; simpl; field; lra).
  rewrite Hdot. lra.
Qed.

Lemma stretchClamp_on_cap s a p :
  0 <= a * or_default (maxStretchRatio (props s)) (15 / 10) ->
  a * or_default (maxStretchRatio (props s)) (15 / 10)
  < Vec3.length (Vec3.sub p (handlePos s)) ->
  Vec3.length (Vec3.sub (stretchClamp s a p) (handlePos s))
  = a * or_default (maxStretchRatio (props s)) (15 / 10).
Proof.
  intros Hpos Hover. unfold stretchClamp.
  set (cap := a * or_default (maxStretchRatio (props s)) (15 / 10)) in *.
  destruct (Rgt_dec _ cap) as [_ | N]; [| lra].
  rewrite sub_add_l, length_scale, normalize_length by lra.
  rewrite Rabs_right; lra.
Qed.

(** A state whose tip rests on the rigid pose of a unit handle direction is
    a fixed point of a sub-step of any duration. *)
Lemma step_rest s a dt :
  Vec3.length (handleDir s) = 1 ->
  1 / 10 <= a ->
  1 <= or_default (maxStretchRatio (props s)) (15 / 10) ->
  tipPos s = Vec3.add (handlePos s) (Vec3.scale (handleDir s) a) ->
  oldTipPos s = tipPos s ->
  performPhysicsStep s a dt = s.
Proof.
  intros Hhd Ha Hm Htip Hold.
  assert (Vec3.sub (tipPos s) (handlePos s) = Vec3.scale (handleDir s) a) as Hoff.
  { rewrite Htip. apply sub_add_l. }
  assert (Vec3.length (Vec3.sub (tipPos s) (handlePos s)) = a) as Hlen.
  { rewrite Hoff, length_scale, Hhd, Rabs_right; lra. }
  assert (verletPos s a dt = tipPos s) as Hv.
  { unfold verletPos. rewrite Hold, <- Htip, sub_self.
    apply vec_ext; simpl; ring. }
  assert (softLength s a dt (tipPos s) = tipPos s) as Hs.
  { unfold softLength. rewrite Hlen.
    destruct (Rgt_dec _ _) as [_ | N]; [| lra].
    rewrite Hoff, normalize_scale_unit by (assumption || lra).
    rewrite Htip. f_equal. f_equal. ring. }
  assert (bendClamp s (tipPos s) = tipPos s) as Hb.
  { apply bendClamp_insideCone. right; right.
    rewrite Hlen, Hoff.
    replace (Vec3.scale (Vec3.scale (handleDir s) a) (1 / a)) with (handleDir s)
      by (apply vec_ext; simpl; field; lra).
    replace (Vec3.dot (handleDir s) (handleDir s)) with 1
      by (unfold Vec3.dot; rewrite unit_sumsq; [reflexivity | exact Hhd]).
    apply COS_bound. }
  assert (stretchClamp s a (tipPos s) = tipPos s) as Hc.
  { apply stretchClamp_within. rewrite Hlen. nra. }
  unfold performPhysicsStep. rewrite Hv, Hs, Hb, Hc.
  destruct s; simpl in *. rewrite Hold. reflexivity.
Qed.

Lemma verletPos_no_spring s a dt :
  stiffness (props s) = 0 ->
  Vec3.sub (verletPos s a dt) (tipPos s)
  = Vec3.scale (Vec3.sub (tipPos s) (oldTipPos s))
               (Rmax 0 (1 - damping (props s) * dt)).
Proof.
  intros Hk. unfold verletPos. rewrite Hk.
  apply vec_ext; simpl; ring.
Qed.

End Stages.

(** ** What a swing keeps, and where it cannot go *)

(** X5. A swing, degenerate or not, leaves the length and the properties of
    the stick as they were, stores the handle position it was given, and
    stores the normalized direction; the active length read by the next call
    is the same. *)
Theorem swing_keeps_configuration (s : Stick.t) (h d : Vector3) (dt : R) :
  Stick.length (Stick.swing s h d dt) = Stick.length s /\
  Stick.props (Stick.swing s h d dt) = Stick.props s /\
  Stick.handlePos (Stick.swing s h d dt) = h /\
  Stick.handleDir (Stick.swing s h d dt) = Vec3.normalize d /\
  Stick.activeLengthOf (Stick.swing s h d dt) = Stick.activeLengthOf s.
Proof.
  destruct (swing_frame s h d dt) as (H1 & H2 & H3 & H4).
  repeat split; try assumption. apply swing_activeLength.
Qed.

Lemma reset_frame s :
  Stick.length (Stick.reset s) = Stick.length s /\
  Stick.props (Stick.reset s) = Stick.props s /\
  Stick.handlePos (Stick.reset s) = Stick.handlePos s /\
  Stick.handleDir (Stick.reset s) = Stick.handleDir s.
Proof. repeat split. Qed.

(** X6. The rigid rest pose is an equilibrium.  For a unit handle direction,
    an active length of at least [0.1] and [maxStretchRatio || 1.5 >= 1], a
    swing of the reset stick with the handle where it is, along the same
    direction (normalized or not), returns the reset state, for every [dt]
    and whatever the stiffness, damping, mass, stretch factor, taper and
    bend limit are. *)
Theorem rest_pose_equilibrium (s : Stick.t) (k dt : R) :
  Vec3.length (Stick.handleDir s) = 1 ->
  1 / 10 <= Stick.activeLengthOf s ->
  1 <= or_default (maxStretchRatio (Stick.props s)) (15 / 10) ->
  0 < k ->
  Stick.swing (Stick.reset s) (Stick.handlePos s)
              (Vec3.scale (Stick.handleDir s) k) dt
  = Stick.reset s.
Proof.
  intros Hhd Ha Hm Hk.
  assert (Vec3.normalize (Vec3.scale (Stick.handleDir s) k) = Stick.handleDir s)
    as Hn by (apply normalize_scale_unit; assumption).
  unfold Stick.swing.
  change (Stick.length (Stick.reset s)
          * (1 - or_default (gripRatio (Stick.props (Stick.reset s))) 0))
    with (Stick.activeLengthOf s).
  destruct (Rlt_dec _ _) as [Hd | _]; [lra |].
  rewrite Hn.
  change (Stick.mk (Stick.length (Stick.reset s)) (Stick.props (Stick.reset s))
            (Stick.handlePos s) (Stick.handleDir s)
            (Stick.tipPos (Stick.reset s)) (Stick.oldTipPos (Stick.reset s)))
    with (Stick.reset s).
  apply loop_fixed, step_rest; try assumption; reflexivity.
Qed.

Lemma up_is_unit (L : R) (p : ElasticProperties) :
  Vec3.length (Stick.handleDir (Stick.constructor L p)) = 1.
Proof. simpl. rewrite length_along_y, Rabs_right; lra. Qed.

Lemma rest_pose_equilibrium_witness :
  Stick.swing (Stick.reset (Stick.constructor 100 defaultProps))
              (Stick.handlePos (Stick.constructor 100 defaultProps))
              (Vec3.scale (Stick.handleDir (Stick.constructor 100 defaultProps)) 2)
              (1 / 60)
  = Stick.reset (Stick.constructor 100 defaultProps).
Proof.
  apply rest_pose_equilibrium.
  - apply up_is_unit.
  - rewrite default_activeLength. lra.
  - rewrite default_maxRatio. lra.
  - lra.
Defined.

(** X7. The soft length correction never overshoots.  A point within
    [0.0001] of the handle is left alone.  Any other point keeps its
    direction from the handle, and its new distance lies between the old
    distance and the active length, whatever [dt] and the stretch factor
    are; once [stretchFactor * 0.05 * dt >= 1] the new distance is the
    active length. *)
Theorem softLength_no_overshoot (s : Stick.t) (a dt : R) (p : Vector3) :
  0 < a ->
  (Vec3.length (Vec3.sub p (Stick.handlePos s)) <= 1 / 10000 ->
   Stick.softLength s a dt p = p) /\
  (1 / 10000 < Vec3.length (Vec3.sub p (Stick.handlePos s)) ->
   Rmin (Vec3.length (Vec3.sub p (Stick.handlePos s))) a
   <= Vec3.length (Vec3.sub (Stick.softLength s a dt p) (Stick.handlePos s))
   <= Rmax (Vec3.length (Vec3.sub p (Stick.handlePos s))) a /\
   Vec3.normalize (Vec3.sub (Stick.softLength s a dt p) (Stick.handlePos s))
   = Vec3.normalize (Vec3.sub p (Stick.handlePos s)) /\
   (1 <= stretchFactor (Stick.props s) * (5 / 100) * dt ->
    Vec3.length (Vec3.sub (Stick.softLength s a dt p) (Stick.handlePos s)) = a)).
Proof.
  intros Ha. split; [apply softLength_near |].
  intros Hfar.
  destruct (softLength_offset s a dt p Hfar) as (alpha & Halpha & Hoff).
  set (d0 := Vec3.length (Vec3.sub p (Stick.handlePos s))) in *.
  assert (Vec3.length (Vec3.normalize (Vec3.sub p (Stick.handlePos s))) = 1)
    as Hunit by (apply normalize_length; fold d0; lra).
  assert (0 < d0 + (a - d0) * alpha) as Hpos by nra.
  split; [| split].
  - rewrite Hoff, length_scale, Hunit, Rabs_right by lra.
    unfold Rmin, Rmax. destruct (Rle_dec d0 a); split; nra.
  - rewrite Hoff. apply normalize_rescaled, Hpos.
  - intros Hfull. rewrite (softLength_full s a dt p Hfar Hfull).
    rewrite sub_add_l, length_scale, Hunit, Rabs_right; lra.
Qed.

Lemma softLength_no_overshoot_witness :
  Rmin (Vec3.length (Vec3.sub (mkVector3 0 150 0)
                              (Stick.handlePos (Stick.constructor 100 defaultProps))))
       100
  <= Vec3.length
       (Vec3.sub (Stick.softLength (Stick.constructor 100 defaultProps) 100 (1 / 480)
                                   (mkVector3 0 150 0))
                 (Stick.handlePos (Stick.constructor 100 defaultProps)))
  <= Rmax (Vec3.length (Vec3.sub (mkVector3 0 150 0)
                                 (Stick.handlePos (Stick.constructor 100 defaultProps))))
          100.
Proof.
  assert (0 < 100) as H100 by lra.
  destruct (softLength_no_overshoot (Stick.constructor 100 defaultProps) 100
              (1 / 480) (mkVector3 0 150 0) H100) as (_ & H).
  apply H.
  replace (Vec3.sub (mkVector3 0 150 0)
                    (Stick.handlePos (Stick.constructor 100 defaultProps)))
    with (mkVector3 0 150 0) by (apply vec_ext; simpl; ring).
  rewrite length_along_y, Rabs_right; lra.
Defined.

(** X8. For a unit handle direction, and unless the point lies exactly
    opposite it, the bend clamp keeps the distance of the point from the
    handle and is idempotent; a point that [insideCone] describes is
    returned unchanged. *)
Theorem bendClamp_keeps_distance (s : Stick.t) (q : Vector3) :
  (Vec3.length (Stick.handleDir s) = 1 ->
   Vec3.dot (Vec3.normalize (Vec3.sub q (Stick.handlePos s))) (Stick.handleDir s)
   <> -1 ->
   Vec3.length (Vec3.sub (Stick.bendClamp s q) (Stick.handlePos s))
   = Vec3.length (Vec3.sub q (Stick.handlePos s)) /\
   Stick.bendClamp s (Stick.bendClamp s q) = Stick.bendClamp s q) /\
  (insideCone (Stick.props s) (Stick.handlePos s) (Stick.handleDir s) q ->
   Stick.bendClamp s q = q).
Proof.
  split.
  - intros Hhd Hopp. split.
    + apply bendClamp_distance; assumption.
    + apply bendClamp_idempotent; assumption.
  - apply bendClamp_insideCone.
Qed.

Lemma bendClamp_keeps_distance_witness :
  Vec3.length
    (Vec3.sub (Stick.bendClamp (Stick.constructor 100 coneProps) (mkVector3 0 100 0))
              (Stick.handlePos (Stick.constructor 100 coneProps)))
  = Vec3.length (Vec3.sub (mkVector3 0 100 0)
                          (Stick.handlePos (Stick.constructor 100 coneProps))).
Proof.
  destruct (bendClamp_keeps_distance (Stick.constructor 100 coneProps)
              (mkVector3 0 100 0)) as (H & _).
  apply H.
  - apply up_is_unit.
  - replace (Vec3.sub (mkVector3 0 100 0)
                      (Stick.handlePos (Stick.constructor 100 coneProps)))
      with (mkVector3 0 100 0) by (apply vec_ext; simpl; ring).
    rewrite normalize_up by lra. unfold Vec3.dot; simpl. lra.
Defined.

(** X9. With a cap [activeLength * (maxStretchRatio || 1.5)] that is not
    negative, the stretch clamp returns a point within the cap unchanged,
    puts a point beyond the cap at exactly the cap distance from the handle,
    and is idempotent. *)
Theorem stretchClamp_projection (s : Stick.t) (a : R) (p : Vector3) :
  0 <= a * or_default (maxStretchRatio (Stick.props s)) (15 / 10) ->
  (Vec3.length (Vec3.sub p (Stick.handlePos s))
   <= a * or_default (maxStretchRatio (Stick.props s)) (15 / 10) ->
   Stick.stretchClamp s a p = p) /\
  (a * or_default (maxStretchRatio (Stick.props s)) (15 / 10)
   < Vec3.length (Vec3.sub p (Stick.handlePos s)) ->
   Vec3.length (Vec3.sub (Stick.stretchClamp s a p) (Stick.handlePos s))
   = a * or_default (maxStretchRatio (Stick.props s)) (15 / 10)) /\
  Stick.stretchClamp s a (Stick.stretchClamp s a p) = Stick.stretchClamp s a p.
Proof.
  intros Hcap.
  split; [apply stretchClamp_within |].
  split; [apply stretchClamp_on_cap, Hcap |].
  apply stretchClamp_within, stretchClamp_bound, Hcap.
Qed.

Lemma stretchClamp_projection_witness :
  Vec3.length
    (Vec3.sub (Stick.stretchClamp (Stick.constructor 100 defaultProps) 100
                                  (mkVector3 0 900 0))
              (Stick.handlePos (Stick.constructor 100 defaultProps)))
  = 100 * or_default
            (maxStretchRatio (Stick.props (Stick.constructor 100 defaultProps)))
            (15 / 10).
Proof.
  assert (0 <= 100 * or_default
                  (maxStretchRatio (Stick.props (Stick.constructor 100 defaultProps)))
                  (15 / 10)) as Hcap by (rewrite default_maxRatio; lra).
  destruct (stretchClamp_projection (Stick.constructor 100 defaultProps) 100
              (mkVector3 0 900 0) Hcap) as (_ & H & _).
  apply H.
  replace (Vec3.sub (mkVector3 0 900 0)
                    (Stick.handlePos (Stick.constructor 100 defaultProps)))
    with (mkVector3 0 900 0) by (apply vec_ext; simpl; ring).
  rewrite default_maxRatio, length_along_y, Rabs_right; lra.
Defined.

Lemma swing_degenerate_snap s h d dt :
  Stick.activeLengthOf s < 1 / 10 ->
  Stick.tipPos (Stick.swing s h d dt) = h /\
  Stick.oldTipPos (Stick.swing s h d dt) = h.
Proof.
  intros Ha. unfold Stick.swing. fold (Stick.activeLengthOf s).
  destruct (Rlt_dec _ _) as [_ | N]; [split; reflexivity | contradiction].
Qed.

Lemma step_oldTipPos s a dt :
  Stick.oldTipPos (Stick.performPhysicsStep s a dt) = Stick.tipPos s.
Proof. reflexivity. Qed.

Lemma beforeLast_tip_bound s h d dt :
  0 <= Stick.activeLengthOf s
       * or_default (maxStretchRatio (Stick.props s)) (15 / 10) ->
  Vec3.length (Vec3.sub (Stick.tipPos (beforeLastSubStep s h d dt)) h)
  <= Stick.activeLengthOf s
     * or_default (maxStretchRatio (Stick.props s)) (15 / 10).
Proof.
  intros Hcap.
  destruct (beforeLast_frame s h d dt) as (_ & Hh & _).
  rewrite <- Hh at 2.
  unfold beforeLastSubStep, Stick.subSteps. simpl pred.
  apply (loop_tip_bound 6 (posed s h d)). exact Hcap.
Qed.

(** X10. The implicit velocity a swing leaves behind is bounded.  With an
    active length and a ratio [maxStretchRatio || 1.5] that are not negative,
    after every swing the tip and the previous tip are at most twice the
    stretch cap apart, whatever [dt], the stiffness and the mass are: each
    of the last two sub-steps ended within the cap of the handle. *)
Theorem swing_velocity_bounded (s : Stick.t) (h d : Vector3) (dt : R) :
  0 <= Stick.activeLengthOf s ->
  0 <= or_default (maxStretchRatio (Stick.props s)) (15 / 10) ->
  Vec3.distance (Stick.tipPos (Stick.swing s h d dt))
                (Stick.oldTipPos (Stick.swing s h d dt))
  <= 2 * (Stick.activeLengthOf s
          * or_default (maxStretchRatio (Stick.props s)) (15 / 10)).
Proof.
  intros Ha Hm. rewrite distance_as_length.
  assert (0 <= Stick.activeLengthOf s
               * or_default (maxStretchRatio (Stick.props s)) (15 / 10))
    as Hcap by (apply Rmult_le_pos; assumption).
  destruct (Rlt_dec (Stick.activeLengthOf s) (1 / 10)) as [Hdeg | Hnd].
  - destruct swing_degenerate_snap with (s := s) (h := h) (d := d) (dt := dt)
      as (Ht & Ho); [exact Hdeg |].
    rewrite Ht, Ho, sub_self, length_zero_vec. lra.
  - pose proof (swing_tip_bound s h d dt) as B1.
    rewrite distance_as_length in B1.
    destruct (swing_frame s h d dt) as (_ & _ & Hh & _).
    rewrite Hh in B1.
    assert (1 / 10 <= Stick.activeLengthOf s) as Ha' by lra.
    specialize (B1 Ha' Hm).
    pose proof (beforeLast_tip_bound s h d dt Hcap) as B2.
    assert (Stick.oldTipPos (Stick.swing s h d dt)
            = Stick.tipPos (beforeLastSubStep s h d dt)) as Hold.
    { rewrite (swing_as_last_step s h d dt Ha'). apply step_oldTipPos. }
    rewrite Hold.
    pose proof (length_sub_triangle (Stick.tipPos (Stick.swing s h d dt)) h
                  (Stick.tipPos (beforeLastSubStep s h d dt))) as T.
    rewrite (length_sub_swap h (Stick.tipPos (beforeLastSubStep s h d dt))) in T.
    lra.
Qed.

Lemma swing_velocity_bounded_witness :
  Vec3.distance
    (Stick.tipPos (Stick.swing (Stick.constructor 100 defaultProps)
                               (mkVector3 1 2 3) (mkVector3 3 0 4) (1 / 60)))
    (Stick.oldTipPos (Stick.swing (Stick.constructor 100 defaultProps)
                                  (mkVector3 1 2 3) (mkVector3 3 0 4) (1 / 60)))
  <= 2 * (Stick.activeLengthOf (Stick.constructor 100 defaultProps)
          * or_default
              (maxStretchRatio (Stick.props (Stick.constructor 100 defaultProps)))
              (15 / 10)).
Proof.
  apply swing_velocity_bounded.
  - rewrite default_activeLength. lra.
  - rewrite default_maxRatio. lra.
Defined.

(** X11. The Verlet prediction is bounded by the damped velocity and the
    mass floor.  When [damping * dt] is not negative, the prediction moves
    the tip by at most the previous displacement plus
    [10 * |effectiveStiffness| * dt * dt] times the distance to the rigid
    pose, whatever the mass is, zero and negative included; once
    [damping * dt >= 1] the previous displacement does not contribute. *)
Theorem verletPos_bounded (s : Stick.t) (a dt : R) :
  0 <= damping (Stick.props s) * dt ->
  Vec3.length (Vec3.sub (Stick.verletPos s a dt) (Stick.tipPos s))
  <= Vec3.length (Vec3.sub (Stick.tipPos s) (Stick.oldTipPos s))
     + 10 * Rabs (stiffness (Stick.props s)
                  * (1 + or_default (taper (Stick.props s)) 0 * (5 / 10)))
       * (dt * dt)
       * Vec3.length
           (Vec3.sub (Vec3.add (Stick.handlePos s)
                               (Vec3.scale (Stick.handleDir s) a))
                     (Stick.tipPos s)) /\
  (1 <= damping (Stick.props s) * dt ->
   Vec3.length (Vec3.sub (Stick.verletPos s a dt) (Stick.tipPos s))
   <= 10 * Rabs (stiffness (Stick.props s)
                 * (1 + or_default (taper (Stick.props s)) 0 * (5 / 10)))
      * (dt * dt)
      * Vec3.length
          (Vec3.sub (Vec3.add (Stick.handlePos s)
                              (Vec3.scale (Stick.handleDir s) a))
                    (Stick.tipPos s))).
Proof.
  intros Hd.
  set (vel := Vec3.sub (Stick.tipPos s) (Stick.oldTipPos s)).
  set (disp := Vec3.sub (Vec3.add (Stick.handlePos s)
                                  (Vec3.scale (Stick.handleDir s) a))
                        (Stick.tipPos s)).
  set (ks := stiffness (Stick.props s)
             * (1 + or_default (taper (Stick.props s)) 0 * (5 / 10))).
  set (drag := Rmax 0 (1 - damping (Stick.props s) * dt)).
  set (m := Rmax (1 / 10) (mass (Stick.props s))).
  assert (Vec3.sub (Stick.verletPos s a dt) (Stick.tipPos s)
          = Vec3.add (Vec3.scale vel drag)
                     (Vec3.scale (Vec3.scale (Vec3.scale disp ks) (1 / m)) (dt * dt)))
    as Hsplit.
  { unfold Stick.verletPos. fold vel disp ks drag m. apply sub_add_l. }
  assert (0 <= drag <= 1) as Hdrag.
  { unfold drag. split; [apply Rmax_l | apply Rmax_lub; lra]. }
  assert (1 / 10 <= m) as Hm by apply Rmax_l.
  assert (0 < 1 / m <= 10) as Hinv.
  { split.
    - unfold Rdiv. rewrite Rmult_1_l. apply Rinv_0_lt_compat. lra.
    - apply (Rmult_le_reg_r m); [lra |]. field_simplify; lra. }
  assert (Vec3.length (Vec3.scale (Vec3.scale (Vec3.scale disp ks) (1 / m)) (dt * dt))
          <= 10 * Rabs ks * (dt * dt) * Vec3.length disp) as Hspring.
  { rewrite !length_scale.
    rewrite (Rabs_right (1 / m)) by lra.
    rewrite (Rabs_right (dt * dt)) by nra.
    pose proof (length_nonneg disp) as Hl. pose proof (Rabs_pos ks) as Hk.
    assert (0 <= Vec3.length disp * Rabs ks * (dt * dt)) as Hprod.
    { apply Rmult_le_pos; [apply Rmult_le_pos; assumption | nra]. }
    replace (Vec3.length disp * Rabs ks * (1 / m) * (dt * dt))
      with (Vec3.length disp * Rabs ks * (dt * dt) * (1 / m)) by ring.
    replace (10 * Rabs ks * (dt * dt) * Vec3.length disp)
      with (Vec3.length disp * Rabs ks * (dt * dt) * 10) by ring.
    apply Rmult_le_compat_l; lra. }
  assert (Vec3.length (Vec3.scale vel drag) <= Vec3.length vel) as Hvel.
  { rewrite length_scale, Rabs_right by lra.
    pose proof (length_nonneg vel). nra. }
  rewrite Hsplit.
  split.
  - pose proof (length_add_le (Vec3.scale vel drag)
                  (Vec3.scale (Vec3.scale (Vec3.scale disp ks) (1 / m)) (dt * dt))).
    lra.
  - intros Hfull.
    assert (drag = 0) as -> by (unfold drag; apply Rmax_left; lra).
    rewrite scale_zero_r.
    pose proof (length_add_le (mkVector3 0 0 0)
                  (Vec3.scale (Vec3.scale (Vec3.scale disp ks) (1 / m)) (dt * dt)))
      as T.
    rewrite length_zero_vec in T. lra.
Qed.

Lemma verletPos_bounded_witness :
  Vec3.length
    (Vec3.sub (Stick.verletPos (Stick.constructor 100 defaultProps) 100 (1 / 480))
              (Stick.tipPos (Stick.constructor 100 defaultProps)))
  <= Vec3.length (Vec3.sub (Stick.tipPos (Stick.constructor 100 defaultProps))
                           (Stick.oldTipPos (Stick.constructor 100 defaultProps)))
     + 10 * Rabs (stiffness (Stick.props (Stick.constructor 100 defaultProps))
                  * (1 + or_default
                           (taper (Stick.props (Stick.constructor 100 defaultProps))) 0
                         * (5 / 10)))
       * (1 / 480 * (1 / 480))
       * Vec3.length
           (Vec3.sub (Vec3.add (Stick.handlePos (Stick.constructor 100 defaultProps))
                               (Vec3.scale
                                  (Stick.handleDir (Stick.constructor 100 defaultProps))
                                  100))
                     (Stick.tipPos (Stick.constructor 100 defaultProps))).
Proof.
  apply (verletPos_bounded (Stick.constructor 100 defaultProps) 100 (1 / 480)).
  simpl. lra.
Defined.

(** ** The query behind the grip and along the rest pose *)

Section QueryShape.

Import Stick.

Lemma query_pommel s t0 :
  t0 < or_default (gripRatio (props s)) 0 ->
  or_default (gripRatio (props s)) 0 <> 0 ->
  queryPNormalize s t0
  = Vec3.sub (handlePos s)
      (Vec3.scale (handleDir s)
                  ((or_default (gripRatio (props s)) 0 - t0) * length s)).
Proof.
  intros Hlt Hne. unfold queryPNormalize.
  destruct (Rlt_dec _ _) as [_ | N]; [| contradiction].
  destruct (Req_dec_T _ 0) as [E | _]; [contradiction | reflexivity].
Qed.

(** On the reset stick with a unit handle direction, the active part of the
    query is a point of the handle axis, at an explicit abscissa. *)
Lemma query_rest_active s t0 :
  Vec3.length (handleDir s) = 1 ->
  ~ t0 < or_default (gripRatio (props s)) 0 ->
  1 / 10 < activeLengthOf s ->
  queryPNormalize (reset s) t0
  = Vec3.add (handlePos s)
      (Vec3.scale (handleDir s)
         (activeLengthOf s
          * ((33 / 100 + or_default (taper (props s)) 0 * (4 / 10))
             * (3 * ((1 - (t0 - or_default (gripRatio (props s)) 0)
                            / (1 - or_default (gripRatio (props s)) 0))
                     * (1 - (t0 - or_default (gripRatio (props s)) 0)
                            / (1 - or_default (gripRatio (props s)) 0)))
                * ((t0 - or_default (gripRatio (props s)) 0)
                   / (1 - or_default (gripRatio (props s)) 0)))
             + (1 - (33 / 100 - or_default (taper (props s)) 0 * (1 / 10)))
               * (3 * (1 - (t0 - or_default (gripRatio (props s)) 0)
                           / (1 - or_default (gripRatio (props s)) 0))
                  * (((t0 - or_default (gripRatio (props s)) 0)
                      / (1 - or_default (gripRatio (props s)) 0))
                     * ((t0 - or_default (gripRatio (props s)) 0)
                        / (1 - or_default (gripRatio (props s)) 0))))
             + ((t0 - or_default (gripRatio (props s)) 0)
                / (1 - or_default (gripRatio (props s)) 0))
               * ((t0 - or_default (gripRatio (props s)) 0)
                  / (1 - or_default (gripRatio (props s)) 0))
               * ((t0 - or_default (gripRatio (props s)) 0)
                  / (1 - or_default (gripRatio (props s)) 0))))).
Proof.
  intros Hhd Hge Hact. unfold queryPNormalize.
  change (props (reset s)) with (props s).
  change (length (reset s)) with (length s).
  change (handlePos (reset s)) with (handlePos s).
  change (handleDir (reset s)) with (handleDir s).
  change (tipPos (reset s))
    with (Vec3.add (handlePos s) (Vec3.scale (handleDir s) (activeLengthOf s))).
  fold (activeLengthOf s).
  set (g := or_default (gripRatio (props s)) 0) in *.
  set (tp := or_default (taper (props s)) 0).
  set (a := activeLengthOf s) in *.
  destruct (Rlt_dec t0 g) as [Hlt | _]; [contradiction |].
  destruct (Rle_dec a (1 / 10)) as [Hle | _]; [lra |].
  set (sT := (t0 - g) / (1 - g)).
  rewrite sub_add_l.
  assert (Vec3.normalize (Vec3.scale (Vec3.scale (handleDir s) a) (-1))
          = Vec3.scale (handleDir s) (-1)) as Hback.
  { replace (Vec3.scale (Vec3.scale (handleDir s) a) (-1))
      with (Vec3.scale (handleDir s) (- a)) by (apply vec_ext; simpl; ring).
    rewrite normalize_scale_neg by lra.
    rewrite (normalize_unit_id _ Hhd). reflexivity. }
  rewrite Hback.
  assert (Vec3.normalize
            (Vec3.add (Vec3.scale (handleDir s) (-1))
                      (Vec3.scale (handleDir s) (5 / 10)))
          = Vec3.scale (handleDir s) (-1)) as Hmix.
  { replace (Vec3.add (Vec3.scale (handleDir s) (-1))
                      (Vec3.scale (handleDir s) (5 / 10)))
      with (Vec3.scale (handleDir s) (- (5 / 10)))
      by (apply vec_ext; simpl; field).
    rewrite normalize_scale_neg by lra.
    rewrite (normalize_unit_id _ Hhd). reflexivity. }
  rewrite Hmix.
  apply vec_ext; simpl; ring.
Qed.

Lemma blend_bounds (hw tw sT : R) :
  0 <= hw <= 1 -> 0 <= tw <= 1 -> 0 <= sT <= 1 ->
  0 <= hw * (3 * ((1 - sT) * (1 - sT)) * sT)
       + (1 - tw) * (3 * (1 - sT) * (sT * sT)) + sT * sT * sT <= 1.
Proof.
  intros Hhw Htw HsT.
  set (A := 3 * ((1 - sT) * (1 - sT)) * sT).
  set (B := 3 * (1 - sT) * (sT * sT)).
  set (C := sT * sT * sT).
  assert (0 <= A) as HA.
  { unfold A. apply Rmult_le_pos; [apply Rmult_le_pos; [lra | nra] | lra]. }
  assert (0 <= B) as HB.
  { unfold B. apply Rmult_le_pos; [lra | nra]. }
  assert (0 <= C) as HC.
  { unfold C. apply Rmult_le_pos; [nra | lra]. }
  assert (0 <= (1 - sT) * (1 - sT) * (1 - sT)) as HU.
  { apply Rmult_le_pos; [nra | lra]. }
  assert (A + B + C = 1 - (1 - sT) * (1 - sT) * (1 - sT)) as Hsum
    by (unfold A, B, C; ring).
  split; nra.
Qed.

End QueryShape.

(** X12. The pommel is rigid.  For [t < gripRatio], with [gripRatio] not
    zero, the query after any swing is the point at distance
    [(gripRatio - t) * length] behind the handle position along the
    normalized direction of that swing: it does not depend on [dt], on the
    tip, or on the material; for a direction that is not zero its distance
    from the handle is [(gripRatio - t) * |length|]. *)
Theorem pommel_rigid (s : Stick.t) (h d : Vector3) (dt t0 : R) :
  t0 < or_default (gripRatio (Stick.props s)) 0 ->
  or_default (gripRatio (Stick.props s)) 0 <> 0 ->
  Stick.queryPNormalize (Stick.swing s h d dt) t0
  = Vec3.sub h
      (Vec3.scale (Vec3.normalize d)
         ((or_default (gripRatio (Stick.props s)) 0 - t0) * Stick.length s)) /\
  (d <> mkVector3 0 0 0 ->
   Vec3.distance (Stick.queryPNormalize (Stick.swing s h d dt) t0) h
   = (or_default (gripRatio (Stick.props s)) 0 - t0) * Rabs (Stick.length s)).
Proof.
  intros Hlt Hne.
  destruct (swing_frame s h d dt) as (H1 & H2 & H3 & H4).
  assert (Stick.queryPNormalize (Stick.swing s h d dt) t0
          = Vec3.sub h
              (Vec3.scale (Vec3.normalize d)
                 ((or_default (gripRatio (Stick.props s)) 0 - t0) * Stick.length s)))
    as Hq.
  { rewrite query_pommel; rewrite ?H1, ?H2, ?H3, ?H4; try assumption.
    reflexivity. }
  split; [exact Hq |].
  intros Hd. rewrite Hq, distance_as_length.
  replace (Vec3.sub
             (Vec3.sub h
                (Vec3.scale (Vec3.normalize d)
                   ((or_default (gripRatio (Stick.props s)) 0 - t0) * Stick.length s)))
             h)
    with (Vec3.scale (Vec3.normalize d)
            (- ((or_default (gripRatio (Stick.props s)) 0 - t0) * Stick.length s)))
    by (apply vec_ext; simpl; ring).
  rewrite length_scale, normalize_length by (apply nonzero_length, Hd).
  rewrite Rabs_Ropp, Rabs_mult, (Rabs_right (_ - t0)) by lra. ring.
Qed.

Lemma gripped_ratio (L : R) :
  or_default (gripRatio (Stick.props (Stick.constructor L grippedProps))) 0 = 1 / 4.
Proof. simpl. destruct (Req_dec_T (1 / 4) 0); lra. Qed.

Lemma pommel_rigid_witness :
  Vec3.distance
    (Stick.queryPNormalize
       (Stick.swing (Stick.constructor 100 grippedProps)
                    (mkVector3 1 2 3) (mkVector3 3 0 4) (1 / 60)) 0)
    (mkVector3 1 2 3)
  = (or_default (gripRatio (Stick.props (Stick.constructor 100 grippedProps))) 0 - 0)
    * Rabs (Stick.length (Stick.constructor 100 grippedProps)).
Proof.
  apply pommel_rigid.
  - rewrite gripped_ratio. lra.
  - rewrite gripped_ratio. lra.
  - exact v304_nonzero.
Defined.

(** X13. A reset stick is drawn straight.  With a unit handle direction,
    every query of the reset stick, at any [t], is a point
    [handlePos + handleDir * lambda] of the handle axis.  For a taper in
    [[0, 1]], a grip ratio below [1], an active length above [0.1] and
    [gripRatio <= t <= 1], that point lies between the handle and the tip:
    [0 <= lambda <= activeLength]. *)
Theorem rest_curve_straight (s : Stick.t) (t0 : R) :
  Vec3.length (Stick.handleDir s) = 1 ->
  (exists lambda,
     Stick.queryPNormalize (Stick.reset s) t0
     = Vec3.add (Stick.handlePos s) (Vec3.scale (Stick.handleDir s) lambda)) /\
  (0 <= or_default (taper (Stick.props s)) 0 <= 1 ->
   or_default (gripRatio (Stick.props s)) 0 < 1 ->
   1 / 10 < Stick.activeLengthOf s ->
   or_default (gripRatio (Stick.props s)) 0 <= t0 <= 1 ->
   exists lambda,
     0 <= lambda <= Stick.activeLengthOf s /\
     Stick.queryPNormalize (Stick.reset s) t0
     = Vec3.add (Stick.handlePos s) (Vec3.scale (Stick.handleDir s) lambda)).
Proof.
  intros Hhd. split.
  - destruct (Rlt_dec t0 (or_default (gripRatio (Stick.props s)) 0)) as [Hlt | Hge].
    + destruct (Req_dec_T (or_default (gripRatio (Stick.props s)) 0) 0) as [E | N].
      * exists 0. unfold Stick.queryPNormalize.
        change (Stick.props (Stick.reset s)) with (Stick.props s).
        destruct (Rlt_dec _ _) as [_ | C]; [| contradiction].
        destruct (Req_dec_T _ 0) as [_ | C]; [| contradiction].
        apply vec_ext; simpl; ring.
      * eexists. rewrite query_pommel by assumption.
        change (Stick.handlePos (Stick.reset s)) with (Stick.handlePos s).
        change (Stick.handleDir (Stick.reset s)) with (Stick.handleDir s).
        change (Stick.props (Stick.reset s)) with (Stick.props s).
        change (Stick.length (Stick.reset s)) with (Stick.length s).
        instantiate (1 := - ((or_default (gripRatio (Stick.props s)) 0 - t0)
                             * Stick.length s)).
        apply vec_ext; simpl; ring.
    + destruct (Rle_dec (Stick.activeLengthOf s) (1 / 10)) as [Hle | Hgt].
      * exists 0. unfold Stick.queryPNormalize.
        change (Stick.props (Stick.reset s)) with (Stick.props s).
        change (Stick.length (Stick.reset s)) with (Stick.length s).
        fold (Stick.activeLengthOf s).
        destruct (Rlt_dec _ _) as [C | _]; [contradiction |].
        destruct (Rle_dec _ _) as [_ | C]; [| contradiction].
        apply vec_ext; simpl; ring.
      * eexists. apply query_rest_active; [exact Hhd | exact Hge | lra].
  - intros Htp Hg Hact Ht.
    eexists. split; [| apply query_rest_active; [exact Hhd | lra | exact Hact]].
    set (g := or_default (gripRatio (Stick.props s)) 0) in *.
    set (tp := or_default (taper (Stick.props s)) 0) in *.
    assert (0 <= (t0 - g) / (1 - g) <= 1) as HsT.
    { split.
      - apply Rmult_le_pos; [lra |]. left. apply Rinv_0_lt_compat. lra.
      - apply (Rmult_le_reg_r (1 - g)); [lra |]. field_simplify; lra. }
    pose proof (blend_bounds (33 / 100 + tp * (4 / 10)) (33 / 100 - tp * (1 / 10))
                  ((t0 - g) / (1 - g))) as B.
    assert (0 <= 33 / 100 + tp * (4 / 10) <= 1) as H1 by lra.
    assert (0 <= 33 / 100 - tp * (1 / 10) <= 1) as H2 by lra.
    specialize (B H1 H2 HsT).
    split; [apply Rmult_le_pos; lra |].
    rewrite <- (Rmult_1_r (Stick.activeLengthOf s)) at 2.
    apply Rmult_le_compat_l; lra.
Qed.

Lemma rest_curve_straight_witness :
  exists lambda,
    0 <= lambda <= Stick.activeLengthOf (Stick.constructor 100 defaultProps) /\
    Stick.queryPNormalize (Stick.reset (Stick.constructor 100 defaultProps)) (1 / 2)
    = Vec3.add (Stick.handlePos (Stick.constructor 100 defaultProps))
               (Vec3.scale (Stick.handleDir (Stick.constructor 100 defaultProps))
                           lambda).
Proof.
  destruct (rest_curve_straight (Stick.constructor 100 defaultProps) (1 / 2)
              (up_is_unit 100 defaultProps)) as (_ & H).
  apply H.
  - simpl. destruct (Req_dec_T 0 0); lra.
  - simpl. destruct (Req_dec_T 0 0); lra.
  - rewrite default_activeLength. lra.
  - simpl. destruct (Req_dec_T 0 0); lra.
Defined.

(** X14. The reset stick has its full length between the two ends of the
    query.  With a unit handle direction, a grip ratio in [[0, 1]] and an
    active length above [0.1], the query at [0] (the pommel) and the query
    at [1] (the tip) of the reset stick are [length] apart. *)
Theorem rest_end_to_end (s : Stick.t) :
  Vec3.length (Stick.handleDir s) = 1 ->
  0 <= or_default (gripRatio (Stick.props s)) 0 <= 1 ->
  1 / 10 < Stick.activeLengthOf s ->
  Vec3.distance (Stick.queryPNormalize (Stick.reset s) 0)
                (Stick.queryPNormalize (Stick.reset s) 1)
  = Stick.length s.
Proof.
  intros Hhd Hg Hact.
  assert (Stick.queryPNormalize (Stick.reset s) 1
          = Vec3.add (Stick.handlePos s)
                     (Vec3.scale (Stick.handleDir s) (Stick.activeLengthOf s)))
    as H1.
  { rewrite query_at_one_active; [reflexivity | apply Hg | exact Hact]. }
  assert (0 < Stick.length s) as HL.
  { unfold Stick.activeLengthOf in Hact.
    set (g := or_default (gripRatio (Stick.props s)) 0) in *. nra. }
  assert (Stick.queryPNormalize (Stick.reset s) 0
          = Vec3.sub (Stick.handlePos s)
              (Vec3.scale (Stick.handleDir s)
                 (or_default (gripRatio (Stick.props s)) 0 * Stick.length s)))
    as H0.
  { destruct (Req_dec_T (or_default (gripRatio (Stick.props s)) 0) 0) as [E | N].
    - pose proof (query_at_grip (Stick.reset s)) as Q.
      change (Stick.props (Stick.reset s)) with (Stick.props s) in Q.
      rewrite E in Q. rewrite Q, E.
      apply vec_ext; simpl; ring.
    - rewrite query_pommel.
      + change (Stick.props (Stick.reset s)) with (Stick.props s).
        apply vec_ext; simpl; ring.
      + change (Stick.props (Stick.reset s)) with (Stick.props s). lra.
      + exact N. }
  rewrite H0, H1, distance_as_length.
  replace (Vec3.sub
             (Vec3.sub (Stick.handlePos s)
                (Vec3.scale (Stick.handleDir s)
                   (or_default (gripRatio (Stick.props s)) 0 * Stick.length s)))
             (Vec3.add (Stick.handlePos s)
                (Vec3.scale (Stick.handleDir s) (Stick.activeLengthOf s))))
    with (Vec3.scale (Stick.handleDir s) (- Stick.length s))
    by (unfold Stick.activeLengthOf; apply vec_ext; simpl; ring).
  rewrite length_scale, Hhd, Rabs_Ropp, Rabs_right; lra.
Qed.

Lemma rest_end_to_end_witness :
  Vec3.distance
    (Stick.queryPNormalize (Stick.reset (Stick.constructor 100 grippedProps)) 0)
    (Stick.queryPNormalize (Stick.reset (Stick.constructor 100 grippedProps)) 1)
  = Stick.length (Stick.constructor 100 grippedProps).
Proof.
  apply rest_end_to_end.
  - apply up_is_unit.
  - rewrite gripped_ratio. lra.
  - unfold Stick.activeLengthOf. rewrite gripped_ratio. simpl. lra.
Defined.
